(** * Women Travel Safety API: a shallow embedding of [main.py] and [schemas.py]

    The service is a set of FastAPI handlers over a MongoDB database.  The
    embedding keeps the handlers' control flow: every handler is a function
    of the database handle ([db], which may be [None]) and of its request,
    and returns the response (or the raised [HTTPException]) together with
    the database it leaves behind.

    Conventions of the model
    - text is a [string] of bytes, the UTF-8 form of the Python string; the
      letter case modelled is that of the ASCII letters;
    - a Python [float] is a binary64 number, kept as mantissa and exponent;
    - a MongoDB collection is the list of its documents in insertion order;
    - what the environment decides (the [ObjectId] an insert assigns, the clock)
      is an argument of the handler that consumes it. *)

From Stdlib Require Import ZArith List String Ascii Bool Arith Lia.
From Stdlib Require Import Permutation Sorted.
Import ListNotations.

Local Open Scope string_scope.
Local Open Scope Z_scope.

Set Implicit Arguments.

(* ------------------------------------------------------------------ *)
(** ** Text *)

Module Text.

(** ASCII lower case of one character ([A]..[Z] are 65..90). *)
Definition lower_char (c : ascii) : ascii :=
  let n := nat_of_ascii c in
  if (Nat.leb 65 n && Nat.leb n 90)%bool then ascii_of_nat (n + 32) else c.

Fixpoint lower (s : string) : string :=
  match s with
  | EmptyString => EmptyString
  | String c s' => String (lower_char c) (lower s')
  end.

(** Equality up to letter case. *)
Definition ci_eqb (a b : string) : bool := String.eqb (lower a) (lower b).

(** [contains needle hay]: [needle] occurs in [hay] (Python's [needle in hay]). *)
Fixpoint contains (needle hay : string) : bool :=
  if String.prefix needle hay then true
  else match hay with
       | EmptyString => false
       | String _ hay' => contains needle hay'
       end.

(** Substring test up to letter case. *)
Definition ci_contains (needle hay : string) : bool :=
  contains (lower needle) (lower hay).

(** Python's [x in xs] for a list of strings. *)
Definition mem (x : string) (xs : list string) : bool :=
  existsb (String.eqb x) xs.

Definition LF : ascii := ascii_of_nat 10.


(** Python truthiness of a string. *)
Definition truthy (s : string) : bool :=
  match s with EmptyString => false | _ => true end.

End Text.

(* ------------------------------------------------------------------ *)
(** ** Python floats

    A finite binary64 number is [mant * 2 ^ expo].  Only what [add_review]
    and the [Place] schema use is modelled: the correctly rounded quotient of
    two integers ([sum(ratings) / len(ratings)], and a decimal literal such as
    [4.7]), [round(x, 2)] and the comparison.  The exponent range is not
    modelled (no overflow, no subnormal numbers): the quotients of this service
    lie between 1 and 5. *)

Module Float64.

Record t : Type := mk { mant : Z; expo : Z }.

(** Nearest integer to [n / d] for [d > 0], ties to the even one. *)
Definition rne (n d : Z) : Z :=
  let q := n / d in
  let r := n mod d in
  match 2 * r ?= d with
  | Lt => q
  | Gt => q + 1
  | Eq => if Z.even q then q else q + 1
  end.

Definition zero : t := mk 0 0.

(** The binary64 number nearest to [n / d], for [n > 0] and [d > 0]:
    the exponent [e] is [floor (log2 (n / d))] and the mantissa has 53 bits. *)
Definition of_ratio_pos (n d : Z) : t :=
  let e0 := Z.log2 n - Z.log2 d in
  let fits := if 0 <=? e0 then d * 2 ^ e0 <=? n else d <=? n * 2 ^ (- e0) in
  let e := if fits then e0 else e0 - 1 in
  let s := 52 - e in
  let m := if 0 <=? s then rne (n * 2 ^ s) d else rne n (d * 2 ^ (- s)) in
  if m =? 2 ^ 53 then mk (2 ^ 52) (1 - s) else mk m (- s).

(** Python's [n / d] on integers (true division, correctly rounded), [d > 0];
    also the value of the decimal literal [n/d] when [d] is a power of ten. *)
Definition of_ratio (n d : Z) : t :=
  match n ?= 0 with
  | Eq => zero
  | Gt => of_ratio_pos n d
  | Lt => let f := of_ratio_pos (- n) d in mk (- mant f) (expo f)
  end.

Definition truediv (n d : Z) : t := of_ratio n d.

(** Python's [round(x, 2)]: the exact value of [x] is rounded to the nearest
    multiple of 1/100, ties to even, and the decimal result is read back as
    a float. *)
Definition round2 (x : t) : t :=
  let h := if 0 <=? expo x
           then 100 * mant x * 2 ^ expo x
           else rne (100 * mant x) (2 ^ (- expo x)) in
  of_ratio h 100.

(** [x <= y]. *)
Definition leb (x y : t) : bool :=
  let e := Z.min (expo x) (expo y) in
  mant x * 2 ^ (expo x - e) <=? mant y * 2 ^ (expo y - e).

Definition eqb (x y : t) : bool := leb x y && leb y x.

(** The literals of the sources. *)
Definition f0_0 : t := zero.
Definition f5_0 : t := of_ratio 5 1.
Definition f3_5 : t := of_ratio 35 10.
Definition f4_7 : t := of_ratio 47 10.
Definition f4_9 : t := of_ratio 49 10.
Definition f4_4 : t := of_ratio 44 10.

End Float64.

(* ------------------------------------------------------------------ *)
(** ** [bson.ObjectId]

    An [ObjectId] is kept as [str(oid)], the lower-case hexadecimal digits of
    its bytes.  [ObjectId(s)] accepts a string of length 24 that
    [bytes.fromhex] can read: hexadecimal digits of either case, two per byte,
    blanks between bytes being skipped. *)

Module Bson.

Definition ObjectId : Type := string.

Definition is_space (c : ascii) : bool :=
  match nat_of_ascii c with
  | 9 | 10 | 11 | 12 | 13 | 32 => true
  | _ => false
  end%nat.

Definition is_hex (c : ascii) : bool :=
  let n := nat_of_ascii c in
  ((Nat.leb 48 n && Nat.leb n 57) || (Nat.leb 65 n && Nat.leb n 70)
   || (Nat.leb 97 n && Nat.leb n 102))%bool.

(** A digit as [str(oid)] prints it. *)
Definition is_lower_hex (c : ascii) : bool :=
  let n := nat_of_ascii c in
  ((Nat.leb 48 n && Nat.leb n 57) || (Nat.leb 97 n && Nat.leb n 102))%bool.

Fixpoint fromhex (s : string) : option string :=
  match s with
  | EmptyString => Some EmptyString
  | String c s' =>
      if is_space c then fromhex s'
      else match s' with
           | EmptyString => None
           | String d s'' =>
               if (is_hex c && is_hex d)%bool then
                 match fromhex s'' with
                 | Some r => Some (String (Text.lower_char c) (String (Text.lower_char d) r))
                 | None => None
                 end
               else None
           end
  end.

(** [ObjectId(s)], [None] standing for [InvalidId]. *)
Definition parse (s : string) : option ObjectId :=
  if Nat.eqb (String.length s) 24 then fromhex s else None.

(** [str(oid)]. *)
Definition str (oid : ObjectId) : string := oid.

Fixpoint all_lower_hex (s : string) : bool :=
  match s with
  | EmptyString => true
  | String c s' => (is_lower_hex c && all_lower_hex s')%bool
  end.

(** The identifiers the store assigns: twelve bytes, printed as 24 digits. *)
Definition wellformed (oid : ObjectId) : bool :=
  (Nat.eqb (String.length oid) 24 && all_lower_hex oid)%bool.

End Bson.

(* ------------------------------------------------------------------ *)
(** ** [schemas.py]: the four collections *)

Module User.
Record t : Type := mk {
  name : string;
  email : string;
  photo : option string;
  saved_places : list string;
  saved_cities : list string
}.
End User.

Module Place.
Record t : Type := mk {
  name : string;
  city : string;
  type : string;
  safety_score : Float64.t;
  description : string;
  main_tags : list string
}.

(** [safety_score: float = Field(3.5, ge=0, le=5)]. *)
Definition default_safety_score : Float64.t := Float64.f3_5.

Definition valid (p : t) : bool :=
  Float64.leb Float64.f0_0 (safety_score p) && Float64.leb (safety_score p) Float64.f5_0.

Definition set_safety_score (x : Float64.t) (p : t) : t :=
  mk (name p) (city p) (type p) x (description p) (main_tags p).
End Place.

Module Review.
Record t : Type := mk {
  user_id : string;
  place_id : string;
  rating : Z;
  safety_tags : list string;
  comment : option string;
  night_safe : bool;
  harassment : bool
}.

(** [rating: int = Field(..., ge=1, le=5)]. *)
Definition valid (r : t) : bool := (1 <=? rating r) && (rating r <=? 5).
End Review.

Module QuizAnswer.
Record t : Type := mk {
  comfort_level : string;
  solo_experience : string;
  night_travel : string;
  anxiety_triggers : list string;
  transport_confidence : string
}.
End QuizAnswer.

Module QuizResult.
Record t : Type := mk {
  user_id : option string;
  persona : string;
  recommendations : list string;
  answers : QuizAnswer.t
}.
End QuizResult.

(* ------------------------------------------------------------------ *)
(** ** The document store *)

(** A stored document: the fields of its model, the [_id] the insert assigned
    and the creation timestamp. *)
Record Doc (A : Type) : Type := mkDoc {
  _id : Bson.ObjectId;
  created_at : Z;
  fields : A
}.

Record Database : Type := mkDatabase {
  user : list (Doc User.t);
  place : list (Doc Place.t);
  review : list (Doc Review.t);
  quizresult : list (Doc QuizResult.t)
}.

Definition empty_db : Database := mkDatabase [] [] [] [].

Definition set_user (db : Database) (c : list (Doc User.t)) : Database :=
  mkDatabase c (place db) (review db) (quizresult db).
Definition set_place (db : Database) (c : list (Doc Place.t)) : Database :=
  mkDatabase (user db) c (review db) (quizresult db).
Definition set_review (db : Database) (c : list (Doc Review.t)) : Database :=
  mkDatabase (user db) (place db) c (quizresult db).
Definition set_quizresult (db : Database) (c : list (Doc QuizResult.t)) : Database :=
  mkDatabase (user db) (place db) (review db) c.

(** pymongo's collection methods, on a collection in insertion order. *)
Module Collection.
Section Ops.
Variable A : Type.
Implicit Type c : list (Doc A).

Definition find_one c (filt : Doc A -> bool) : option (Doc A) := List.find filt c.

Definition find c (filt : Doc A -> bool) : list (Doc A) := List.filter filt c.

(** [update_one]: the first matching document is updated, if there is one. *)
Fixpoint update_one c (filt : Doc A -> bool) (upd : A -> A) : list (Doc A) :=
  match c with
  | [] => []
  | d :: c' =>
      if filt d then mkDoc (_id d) (created_at d) (upd (fields d)) :: c'
      else d :: update_one c' filt upd
  end.

Definition insert_one c (d : Doc A) : list (Doc A) := c ++ [d].

(** [cursor.sort(key, -1)]: descending by [key]. *)
Fixpoint insert_desc (key : Doc A -> Z) (d : Doc A) (sorted : list (Doc A)) : list (Doc A) :=
  match sorted with
  | [] => [d]
  | x :: rest => if key x <=? key d then d :: sorted else x :: insert_desc key d rest
  end.

Definition sort_desc (key : Doc A -> Z) c : list (Doc A) :=
  fold_right (insert_desc key) [] c.
End Ops.

(** The filter [{"_id": oid}]. *)
Definition by_id {A} (oid : Bson.ObjectId) (d : Doc A) : bool := String.eqb (_id d) oid.
End Collection.

(** The filters the handlers pass. *)
Definition by_place_id (place_id : string) (d : Doc Review.t) : bool :=
  String.eqb (Review.place_id (fields d)) place_id.
Definition by_email (email : string) (d : Doc User.t) : bool :=
  String.eqb (User.email (fields d)) email.

(** The update [{"$addToSet": {"saved_places": place_id}}]. *)
Definition addToSet (x : string) (xs : list string) : list string :=
  if Text.mem x xs then xs else xs ++ [x].
Definition addToSet_saved_places (place_id : string) (u : User.t) : User.t :=
  User.mk (User.name u) (User.email u) (User.photo u)
          (addToSet place_id (User.saved_places u)) (User.saved_cities u).

(* ------------------------------------------------------------------ *)
(** ** Exceptions and the handler monad *)

Inductive exn : Type :=
| HTTPException (status_code : Z) (detail : string)
| ValidationError (model : string).

Inductive result (A : Type) : Type :=
| Ok (a : A)
| Raise (e : exn).
Arguments Raise {A} e.

(** A handler body reads and writes the database and may raise; what it wrote
    before raising stays written (no transaction). *)
Definition M (A : Type) : Type := Database -> result A * Database.

Definition ret {A} (a : A) : M A := fun db => (Ok a, db).
Definition raise {A} (e : exn) : M A := fun db => (Raise e, db).
Definition bind {A B} (m : M A) (k : A -> M B) : M B :=
  fun db => match m db with
            | (Ok a, db') => k a db'
            | (Raise e, db') => (Raise e, db')
            end.
Definition gets {A} (f : Database -> A) : M A := fun db => (Ok (f db), db).
Definition modify (f : Database -> Database) : M unit := fun db => (Ok tt, f db).

Notation "x <- m ;; k" := (bind m (fun x => k))
  (at level 61, m at next level, right associativity).
Notation "m ;;; k" := (bind m (fun _ => k))
  (at level 61, right associativity).

(** [if db is None: raise HTTPException(status_code=500, ...)], then the body. *)
Definition with_db {A} (db : option Database) (body : M A) : result A * option Database :=
  match db with
  | None => (Raise (HTTPException 500 "Database not available"), None)
  | Some d => let (r, d') := body d in (r, Some d')
  end.

(** [objid]. *)
Definition objid (id_str : string) : M Bson.ObjectId :=
  match Bson.parse id_str with
  | Some oid => ret oid
  | None => raise (HTTPException 400 "Invalid ID format")
  end.

(** The document as the API returns it: [id] is [str(_id)]. *)
Record Serialized (A : Type) : Type := mkSerialized {
  doc_id : string;
  doc_created_at : Z;
  doc_fields : A
}.

Definition serialize_doc {A} (d : Doc A) : Serialized A :=
  mkSerialized (Bson.str (_id d)) (created_at d) (fields d).

(** [serialize]: an absent document ([None]) is returned as it is. *)
Definition serialize {A} (doc : option (Doc A)) : option (Serialized A) :=
  match doc with
  | None => None
  | Some d => Some (serialize_doc d)
  end.

(** Modelled from the spec: [database.create_document] is not among the
    sources.  The spec gives it as [insert(collection, document) -> id], the
    document getting "a server-assigned creation timestamp" and an identifier
    "assigned at creation time"; the identifier comes back as a string.
    [oid] and [now] are the store's choices. *)
Definition create_document {A} (get : Database -> list (Doc A))
    (set : Database -> list (Doc A) -> Database)
    (data : A) (oid : Bson.ObjectId) (now : Z) : M string :=
  modify (fun db => set db (Collection.insert_one (get db) (mkDoc oid now data))) ;;;
  ret (Bson.str oid).

(* ------------------------------------------------------------------ *)
(** ** The regular expressions of the database server

    A [$regex] condition is evaluated by the server's PCRE engine, on the
    pattern string the handler sends.  The model covers this part of the
    pattern language: a pattern is a sequence of literal characters and of the
    metacharacters [.], [^] and [$], the options are none or [i], and patterns
    and subjects are ASCII text.  Within it the engine is modelled as PCRE
    documents it: [.] is any character but a line feed, [^] holds at the start
    of the subject, [$] at its end and before a line feed that ends it, and
    [i] ignores the case of letters.  Beyond it (the other metacharacters,
    other options, and text outside ASCII, whose letter case is Unicode's) the
    model gives no answer: [None]. *)

Module Pcre.

Inductive atom : Type :=
| Lit (c : ascii)   (* a literal character *)
| Dot               (* [.] *)
| Bol               (* [^] *)
| Eol.              (* [$] *)

Record regex : Type := mkRegex { caseless : bool; atoms : list atom }.

(** The metacharacters that are not modelled. *)
Definition unmodelled : string := "\|?*+()[]{}".

Fixpoint occurs (c : ascii) (s : string) : bool :=
  match s with
  | EmptyString => false
  | String x s' => (Ascii.eqb c x || occurs c s')%bool
  end.

(** An ASCII character other than NUL. *)
Definition is_ascii (c : ascii) : bool :=
  (Nat.leb 1 (nat_of_ascii c) && Nat.leb (nat_of_ascii c) 127)%bool.

Fixpoint ascii_text (s : string) : bool :=
  match s with
  | EmptyString => true
  | String c s' => (is_ascii c && ascii_text s')%bool
  end.

Fixpoint compile_atoms (p : string) : option (list atom) :=
  match p with
  | EmptyString => Some []
  | String c p' =>
      if (negb (is_ascii c) || occurs c unmodelled)%bool then None
      else
        let a := if Ascii.eqb c "^" then Bol
                 else if Ascii.eqb c "$" then Eol
                 else if Ascii.eqb c "." then Dot
                 else Lit c in
        match compile_atoms p' with
        | Some rest => Some (a :: rest)
        | None => None
        end
  end.

Definition compile (pattern options : string) : option regex :=
  match compile_atoms pattern with
  | Some l =>
      if String.eqb options "i" then Some (mkRegex true l)
      else if String.eqb options "" then Some (mkRegex false l)
      else None
  | None => None
  end.

Definition same_char (ci : bool) (c x : ascii) : bool :=
  if ci then Ascii.eqb (Text.lower_char c) (Text.lower_char x) else Ascii.eqb c x.

(** [match_here ci l bol s]: the atoms [l] match a prefix of [s]; [bol] tells
    whether [s] is the whole subject. *)
Fixpoint match_here (ci : bool) (l : list atom) (bol : bool) (s : string) : bool :=
  match l with
  | [] => true
  | Lit c :: rest =>
      match s with
      | String x s' => (same_char ci c x && match_here ci rest false s')%bool
      | EmptyString => false
      end
  | Dot :: rest =>
      match s with
      | String x s' => (negb (Ascii.eqb x Text.LF) && match_here ci rest false s')%bool
      | EmptyString => false
      end
  | Bol :: rest => (bol && match_here ci rest bol s)%bool
  | Eol :: rest =>
      ((String.eqb s "" || String.eqb s (String Text.LF "")) && match_here ci rest bol s)%bool
  end.

(** A match that starts at some position of the subject. *)
Fixpoint search_from (ci : bool) (l : list atom) (bol : bool) (s : string) : bool :=
  (match_here ci l bol s
   || match s with
      | String _ s' => search_from ci l false s'
      | EmptyString => false
      end)%bool.

Definition exec (re : regex) (subject : string) : option bool :=
  if ascii_text subject then Some (search_from (caseless re) (atoms re) true subject)
  else None.

(** [{"$regex": pattern, "$options": options}] on a string. *)
Definition search (pattern options subject : string) : option bool :=
  match compile pattern options with
  | Some re => exec re subject
  | None => None
  end.

End Pcre.

(* ------------------------------------------------------------------ *)
(** ** MongoDB queries of the places directory

    [list_places] builds its filter as a dictionary of [$regex] conditions.
    A condition has an answer where [Pcre] has one. *)

Module Query.

Inductive operator : Type :=
| Regex (pattern options : string)      (* {"$regex": pattern, "$options": options} *)
| ElemMatch (inner : operator).         (* {"$elemMatch": inner} *)

Inductive clause : Type :=
| Field (key : string) (op : operator)  (* key: op *)
| Or (alternatives : list (string * operator)).  (* "$or": [{key: op}, ...] *)

(** A filter dictionary: all its entries must hold. *)
Definition t : Type := list clause.

Inductive value : Type :=
| Str (s : string)
| Arr (xs : list string)
| Other.

Definition or_ (a b : option bool) : option bool :=
  match a, b with
  | Some x, Some y => Some (x || y)%bool
  | _, _ => None
  end.

Definition and_ (a b : option bool) : option bool :=
  match a, b with
  | Some x, Some y => Some (x && y)%bool
  | _, _ => None
  end.

Fixpoint any {A} (f : A -> option bool) (l : list A) : option bool :=
  match l with
  | [] => Some false
  | x :: l' => or_ (f x) (any f l')
  end.

Fixpoint all {A} (f : A -> option bool) (l : list A) : option bool :=
  match l with
  | [] => Some true
  | x :: l' => and_ (f x) (all f l')
  end.

(** The patterns of a condition are within the model. *)
Fixpoint compiles (op : operator) : bool :=
  match op with
  | Regex p o => match Pcre.compile p o with Some _ => true | None => false end
  | ElemMatch inner => compiles inner
  end.

Definition clause_compiles (c : clause) : bool :=
  match c with
  | Field _ op => compiles op
  | Or alternatives => forallb (fun ko => compiles (snd ko)) alternatives
  end.

Fixpoint holds (op : operator) (v : value) : option bool :=
  match op with
  | Regex p o =>
      match v with
      | Str s => Pcre.search p o s
      | Arr xs => any (Pcre.search p o) xs
      | Other => Some false
      end
  | ElemMatch inner =>
      match v with
      | Arr xs => any (fun x => holds inner (Str x)) xs
      | _ => Some false
      end
  end.

Section Eval.
Variable A : Type.
Variable field : A -> string -> value.

Definition clause_holds (c : clause) (d : A) : option bool :=
  match c with
  | Field key op => holds op (field d key)
  | Or alternatives => any (fun ko => holds (snd ko) (field d (fst ko))) alternatives
  end.

Definition matches (filt : t) (d : A) : option bool :=
  all (fun c => clause_holds c d) filt.

(** The documents of a collection that match, in its order. *)
Fixpoint select (filt : t) (c : list A) : option (list A) :=
  match c with
  | [] => Some []
  | d :: c' =>
      match matches filt d, select filt c' with
      | Some b, Some rest => Some (if b then d :: rest else rest)
      | _, _ => None
      end
  end.

Definition find (filt : t) (c : list A) : option (list A) :=
  if forallb clause_compiles filt then select filt c else None.
End Eval.

End Query.

(** The fields of a place document by key. *)
Definition place_field (d : Doc Place.t) (key : string) : Query.value :=
  let p := fields d in
  if String.eqb key "name" then Query.Str (Place.name p)
  else if String.eqb key "city" then Query.Str (Place.city p)
  else if String.eqb key "type" then Query.Str (Place.type p)
  else if String.eqb key "description" then Query.Str (Place.description p)
  else if String.eqb key "main_tags" then Query.Arr (Place.main_tags p)
  else Query.Other.

(** Modelled from the spec: [database.get_documents] is not among the
    sources.  The spec gives it as [find(collection, filter) -> sequence of
    document], "in store-default order"; the limit passed is [None].  The
    result is [None] where the filter has no answer in the model. *)
Definition get_documents {A} (get : Database -> list (Doc A))
    (field : Doc A -> string -> Query.value) (filt : Query.t) (db : Database)
  : option (list (Doc A)) :=
  Query.find field filt (get db).

(* ------------------------------------------------------------------ *)
(** ** Request bodies of [main.py] *)

Module NewReview.
Record t : Type := mk {
  user_id : string;
  rating : Z;
  safety_tags : list string;
  comment : option string;
  night_safe : bool;
  harassment : bool
}.

(** [rating: int = Field(..., ge=1, le=5)]. *)
Definition valid (p : t) : bool := (1 <=? rating p) && (rating p <=? 5).
End NewReview.

Module Signup.
Record t : Type := mk {
  name : string;
  email : string;
  photo : option string
}.
End Signup.

Module SavePlace.
Record t : Type := mk { place_id : string }.
End SavePlace.

(** The response of [POST /quiz]. *)
Record QuizResponse : Type := mkQuizResponse {
  quiz_id : string;
  quiz_persona : string;
  quiz_recommendations : list string
}.

(** What the store decides at an insert: the new [_id] and the time. *)
Definition env : Type := (Bson.ObjectId * Z)%type.

(* ------------------------------------------------------------------ *)
(** ** The handlers *)

(** *** [POST /seed] *)

Definition aurora : Place.t :=
  Place.mk "Aurora Boutique Hotel" "Lisbon" "hotel" Float64.f4_7
    "Women-staffed, well-lit area; guests report safe returns at night."
    ["women-staffed"; "well-lit"; "central"].

Definition garden_district : Place.t :=
  Place.mk "Garden District" "Singapore" "neighborhood" Float64.f4_9
    "Exceptionally safe at night; strong street presence and cameras."
    ["night-safe"; "family-friendly"; "clean"].

Definition olive_and_thyme : Place.t :=
  Place.mk "Olive & Thyme" "Barcelona" "restaurant" Float64.f4_4
    "Busy staff presence, friendly crowd; avoid very late weekends."
    ["staff-present"; "friendly"; "busy"].

Definition samples : list Place.t := [aurora; garden_district; olive_and_thyme].

(** [for p in samples: ids.append(create_document("place", p))]. *)
Fixpoint seed_loop (ps : list Place.t) (es : list env) : M (list string) :=
  match ps, es with
  | p :: ps', (oid, now) :: es' =>
      i <- create_document place set_place p oid now ;;
      ids <- seed_loop ps' es' ;;
      ret (i :: ids)
  | _, _ => ret []
  end.

Definition seed_sample (db : option Database) (e1 e2 e3 : env)
  : result (list string) * option Database :=
  with_db db
    (if forallb Place.valid samples
     then seed_loop samples [e1; e2; e3]
     else raise (ValidationError "Place")).

(** *** [GET /places] *)

(** [if city:] holds for a parameter that is given and not empty. *)
Definition given (x : option string) : option string :=
  match x with
  | Some s => if Text.truthy s then Some s else None
  | None => None
  end.

Definition places_filter (city type q : option string) : Query.t :=
  let by_city :=
    match given city with
    | Some c => [Query.Field "city" (Query.Regex ("^" ++ c ++ "$") "i")]
    | None => []
    end in
  let by_type :=
    match given type with
    | Some t => [Query.Field "type" (Query.Regex ("^" ++ t ++ "$") "i")]
    | None => []
    end in
  let by_q :=
    match given q with
    | Some q => [Query.Or [ ("name", Query.Regex q "i");
                            ("description", Query.Regex q "i");
                            ("main_tags", Query.ElemMatch (Query.Regex q "i")) ]]
    | None => []
    end in
  List.app by_city (List.app by_type by_q).

(** The answer is [None] for a request whose patterns or stored text lie
    beyond the modelled regular expressions. *)
Definition list_places (db : option Database) (city type q : option string)
  : option (result (list (Serialized Place.t)) * option Database) :=
  match db with
  | None => Some (Raise (HTTPException 500 "Database not available"), None)
  | Some d =>
      let filt := places_filter city type q in
      match get_documents place place_field filt d with
      | Some docs => Some (Ok (map serialize_doc docs), Some d)
      | None => None
      end
  end.

(** *** [POST /places/{place_id}/reviews] *)

Definition sum (xs : list Z) : Z := fold_right Z.add 0 xs.
Definition len {A} (xs : list A) : Z := Z.of_nat (List.length xs).

Definition add_review (db : option Database) (place_id : string) (payload : NewReview.t)
    (e : env) : result string * option Database :=
  with_db db
    ((* ensure place exists *)
     pid <- objid place_id ;;
     found <- gets (fun d => Collection.find_one (place d) (Collection.by_id pid)) ;;
     match found with
     | None => raise (HTTPException 404 "Place not found")
     | Some _ =>
         let review_ := Review.mk (NewReview.user_id payload) place_id (NewReview.rating payload)
                          (NewReview.safety_tags payload) (NewReview.comment payload)
                          (NewReview.night_safe payload) (NewReview.harassment payload) in
         (if Review.valid review_ then ret tt else raise (ValidationError "Review")) ;;;
         rid <- create_document review set_review review_ (fst e) (snd e) ;;
         (* naive safety score update (average of ratings) *)
         ratings <- gets (fun d => map (fun r => Review.rating (fields r))
                                       (Collection.find (review d) (by_place_id place_id))) ;;
         (match ratings with
          | [] => ret tt
          | _ :: _ =>
              let avg := Float64.truediv (sum ratings) (len ratings) in
              pid' <- objid place_id ;;
              modify (fun d => set_place d
                         (Collection.update_one (place d) (Collection.by_id pid')
                            (Place.set_safety_score (Float64.round2 avg))))
          end) ;;;
         ret rid
     end).

(** The route: FastAPI validates the body against [NewReview] and answers
    with a validation error, without calling the handler, when it fails. *)
Definition route_add_review (db : option Database) (place_id : string) (body : NewReview.t)
    (e : env) : result string * option Database :=
  if NewReview.valid body then add_review db place_id body e
  else (Raise (ValidationError "NewReview"), db).

(** *** [GET /places/{place_id}/reviews] *)

Definition list_reviews (db : option Database) (place_id : string)
  : result (list (Serialized Review.t)) * option Database :=
  with_db db
    (docs <- gets (fun d => Collection.sort_desc (@created_at _)
                              (Collection.find (review d) (by_place_id place_id))) ;;
     ret (map serialize_doc docs)).

(** *** [POST /quiz] *)

Definition quiz_score (ans : QuizAnswer.t) : Z :=
  let score := 0 in
  let score :=
    if Text.mem (QuizAnswer.comfort_level ans) ["high"; "medium"]
    then score + (if String.eqb (QuizAnswer.comfort_level ans) "high" then 2 else 1)
    else score in
  let score :=
    if Text.mem (QuizAnswer.solo_experience ans) ["5+"; "2-4"]
    then score + (if String.eqb (QuizAnswer.solo_experience ans) "5+" then 2 else 1)
    else score in
  let score :=
    if String.eqb (QuizAnswer.night_travel ans) "comfortable" then score + 2 else score in
  let score :=
    if negb (Text.mem "crowds" (QuizAnswer.anxiety_triggers ans)) then score + 1 else score in
  let score :=
    if Text.mem (QuizAnswer.transport_confidence ans) ["metro"; "ride-share"]
    then score + 1 else score in
  score.

Definition quiz_verdict (score : Z) : string * list string :=
  if 6 <=? score then ("Trailblazer", ["Singapore"; "Lisbon"; "Copenhagen"])
  else if 4 <=? score then ("Planner", ["Tokyo"; "Vienna"; "Seoul"])
  else ("Cautious Explorer", ["Reykjavik"; "Zurich"; "Taipei"]).

(** The handler does not test [db]; it runs on an available database. *)
Definition evaluate_quiz (ans : QuizAnswer.t) (user_id : option string) (e : env)
  : M QuizResponse :=
  let score := quiz_score ans in
  let (persona, recs) := quiz_verdict score in
  let result_ := QuizResult.mk user_id persona recs ans in
  rid <- create_document quizresult set_quizresult result_ (fst e) (snd e) ;;
  ret (mkQuizResponse rid persona recs).

(** *** [POST /auth/signup] *)

Definition signup (db : option Database) (payload : Signup.t) (e : env)
  : result (option (Serialized User.t)) * option Database :=
  with_db db
    (existing <- gets (fun d => Collection.find_one (user d) (by_email (Signup.email payload))) ;;
     match existing with
     | Some _ => ret (serialize existing)
     | None =>
         uid <- create_document user set_user
                  (User.mk (Signup.name payload) (Signup.email payload) (Signup.photo payload) [] [])
                  (fst e) (snd e) ;;
         oid <- objid uid ;;
         doc <- gets (fun d => Collection.find_one (user d) (Collection.by_id oid)) ;;
         ret (serialize doc)
     end).

(** *** [POST /me/{user_id}/save] *)

Definition save_place (db : option Database) (user_id : string) (payload : SavePlace.t)
  : result (option (Serialized User.t)) * option Database :=
  with_db db
    (oid <- objid user_id ;;
     modify (fun d => set_user d
                (Collection.update_one (user d) (Collection.by_id oid)
                   (addToSet_saved_places (SavePlace.place_id payload)))) ;;;
     oid' <- objid user_id ;;
     doc <- gets (fun d => Collection.find_one (user d) (Collection.by_id oid')) ;;
     ret (serialize doc)).

(** *** [GET /me/{user_id}] *)

Definition profile (db : option Database) (user_id : string)
  : result (option (Serialized User.t)) * option Database :=
  with_db db
    (oid <- objid user_id ;;
     doc <- gets (fun d => Collection.find_one (user d) (Collection.by_id oid)) ;;
     match doc with
     | None => raise (HTTPException 404 "User not found")
     | Some _ => ret (serialize doc)
     end).

(* ------------------------------------------------------------------ *)
(** ** Derived notions used by the statements *)

(** The ratings of the reviews filed under [place_id], in insertion order. *)
Definition ratings_of (db : Database) (place_id : string) : list Z :=
  map (fun r => Review.rating (fields r)) (Collection.find (review db) (by_place_id place_id)).

(** [round(sum(ratings) / len(ratings), 2)]. *)
Definition rounded_mean (ratings : list Z) : Float64.t :=
  Float64.round2 (Float64.truediv (sum ratings) (len ratings)).

(** The ratings of the reviews whose [place_id] reads as the identifier
    [oid], whatever its spelling. *)
Definition ratings_referencing (db : Database) (oid : Bson.ObjectId) : list Z :=
  map (fun r => Review.rating (fields r))
      (Collection.find (review db)
         (fun r => match Bson.parse (Review.place_id (fields r)) with
                   | Some o => String.eqb o oid
                   | None => false
                   end)).

(** The score of the place a path parameter designates, if there is one. *)
Definition score_of (db : Database) (place_id : string) : option Float64.t :=
  match Bson.parse place_id with
  | Some oid =>
      match Collection.find_one (place db) (Collection.by_id oid) with
      | Some p => Some (Place.safety_score (fields p))
      | None => None
      end
  | None => None
  end.

(** [place_id] designates a stored place. *)
Definition references_place (db : Database) (place_id : string) : bool :=
  match score_of db place_id with Some _ => true | None => false end.

(** The database a response leaves behind. *)
Definition db_after {A} (r : result A * option Database) : option Database := snd r.

(** Reviews posted one after the other for the same [place_id]. *)
Fixpoint add_reviews (db : option Database) (place_id : string)
    (calls : list (NewReview.t * env)) : list (result string) * option Database :=
  match calls with
  | [] => ([], db)
  | (payload, e) :: rest =>
      let (r, db1) := route_add_review db place_id payload e in
      let (rs, db2) := add_reviews db1 place_id rest in
      (r :: rs, db2)
  end.

Definition is_ok {A} (r : result A) : bool :=
  match r with Ok _ => true | Raise _ => false end.

(** *** Runs of the service *)

Inductive request : Type :=
| PostSeed (e1 e2 e3 : env)
| PostReview (place_id : string) (body : NewReview.t) (e : env)
| PostQuiz (ans : QuizAnswer.t) (user_id : option string) (e : env)
| PostSignup (payload : Signup.t) (e : env)
| PostSave (user_id : string) (payload : SavePlace.t).

Definition or_else (new : option Database) (old : Database) : Database :=
  match new with Some d => d | None => old end.

Definition step (db : Database) (r : request) : Database :=
  match r with
  | PostSeed e1 e2 e3 => or_else (db_after (seed_sample (Some db) e1 e2 e3)) db
  | PostReview place_id body e => or_else (db_after (route_add_review (Some db) place_id body e)) db
  | PostQuiz ans user_id e => snd (evaluate_quiz ans user_id e db)
  | PostSignup payload e => or_else (db_after (signup (Some db) payload e)) db
  | PostSave user_id payload => or_else (db_after (save_place (Some db) user_id payload)) db
  end.

(** The path parameter is spelled as the service prints identifiers
    (or is no identifier at all). *)
Definition printed_form (place_id : string) : bool :=
  match Bson.parse place_id with
  | Some oid => String.eqb (Bson.str oid) place_id
  | None => true
  end.

(** The runs considered: an insert of a place assigns an identifier that the
    collection does not hold yet, and a review is posted under the printed
    spelling of the place's identifier. *)
Definition admissible (db : Database) (r : request) : Prop :=
  match r with
  | PostSeed e1 e2 e3 =>
      NoDup (map (@_id _) (place db) ++ [fst e1; fst e2; fst e3])
  | PostReview place_id _ _ => printed_form place_id = true
  | _ => True
  end.

Inductive reachable : Database -> Prop :=
| reachable_empty : reachable empty_db
| reachable_step db r : reachable db -> admissible db r -> reachable (step db r).

(* ------------------------------------------------------------------ *)
(** ** The directory query as the specification words it *)

(** A parameter that is given constrains the result, an omitted one does
    not. *)
Definition claimed_place_match (city type q : option string) (d : Doc Place.t) : bool :=
  let p := fields d in
  (match city with Some c => Text.ci_eqb c (Place.city p) | None => true end)
  && (match type with Some t => Text.ci_eqb t (Place.type p) | None => true end)
  && (match q with
      | Some q => Text.ci_contains q (Place.name p)
                  || Text.ci_contains q (Place.description p)
                  || existsb (Text.ci_contains q) (Place.main_tags p)
      | None => true
      end).


Definition metacharacters : string := "\^$.|?*+()[]{}".

(** ASCII text without a regular-expression metacharacter. *)
Fixpoint plain (p : string) : bool :=
  match p with
  | EmptyString => true
  | String c p' => (Pcre.is_ascii c && negb (Pcre.occurs c metacharacters) && plain p')%bool
  end.





(* ------------------------------------------------------------------ *)
(** ** Sample data of the examples *)

Definition oid1 : Bson.ObjectId := "65a1f0c2d4e5f6a7b8c9d001".
Definition oid2 : Bson.ObjectId := "65a1f0c2d4e5f6a7b8c9d002".
Definition oid3 : Bson.ObjectId := "65a1f0c2d4e5f6a7b8c9d003".
Definition oid4 : Bson.ObjectId := "65a1f0c2d4e5f6a7b8c9d004".
Definition oid5 : Bson.ObjectId := "65a1f0c2d4e5f6a7b8c9d005".
Definition oid6 : Bson.ObjectId := "65a1f0c2d4e5f6a7b8c9d006".

(** The database after [POST /seed] on an empty one. *)
Definition seeded_db : Database := step empty_db (PostSeed (oid1, 100) (oid2, 101) (oid3, 102)).

(** The first seeded place under the upper-case spelling of its identifier,
    and the databases after a review under each spelling. *)
Definition oid1_upper : string := "65A1F0C2D4E5F6A7B8C9D001".
Definition respelled_db1 : Database :=
  step seeded_db (PostReview oid1 (NewReview.mk oid4 5 ["well-lit"] None true false) (oid5, 200)).
Definition respelled_db2 : Database :=
  step respelled_db1
       (PostReview oid1_upper (NewReview.mk oid4 1 ["well-lit"] None true false) (oid6, 201)).

(** The database after a signup, and the user document it stored. *)
Definition signed_up_db : Database :=
  step seeded_db (PostSignup (Signup.mk "Ana" "ana@example.org" None) (oid4, 300)).
Definition ana : Doc User.t :=
  mkDoc oid4 300 (User.mk "Ana" "ana@example.org" None [] []).

Definition review_body (rating : Z) : NewReview.t :=
  NewReview.mk oid4 rating ["well-lit"] None true false.

Definition reviewed_db : Database :=
  step (step seeded_db (PostReview oid1 (review_body 5) (oid5, 200)))
       (PostReview oid1 (review_body 4) (oid6, 201)).

(** The quiz as the specification words it. *)
Definition claimed_quiz_score (ans : QuizAnswer.t) : Z :=
  (if String.eqb (QuizAnswer.comfort_level ans) "high" then 2
   else if String.eqb (QuizAnswer.comfort_level ans) "medium" then 1 else 0)
  + (if String.eqb (QuizAnswer.solo_experience ans) "5+" then 2
     else if String.eqb (QuizAnswer.solo_experience ans) "2-4" then 1 else 0)
  + (if String.eqb (QuizAnswer.night_travel ans) "comfortable" then 2 else 0)
  + (if Text.mem "crowds" (QuizAnswer.anxiety_triggers ans) then 0 else 1)
  + (if String.eqb (QuizAnswer.transport_confidence ans) "metro" then 1
     else if String.eqb (QuizAnswer.transport_confidence ans) "ride-share" then 1 else 0).

Definition claimed_persona (score : Z) : string :=
  if 6 <=? score then "Trailblazer" else if 4 <=? score then "Planner" else "Cautious Explorer".

Definition claimed_recommendations (score : Z) : list string :=
  if 6 <=? score then ["Singapore"; "Lisbon"; "Copenhagen"]
  else if 4 <=? score then ["Tokyo"; "Vienna"; "Seoul"]
  else ["Reykjavik"; "Zurich"; "Taipei"].

Definition trailblazer_answers : QuizAnswer.t :=
  QuizAnswer.mk "high" "5+" "comfortable" [] "metro".
Definition cautious_answers : QuizAnswer.t :=
  QuizAnswer.mk "low" "0-1" "uncomfortable" ["crowds"] "walk".

(** Newest first. *)
Definition newest_first {A} (a b : Doc A) : Prop := created_at b <= created_at a.

(* ------------------------------------------------------------------ *)
(** ** Notions of the statements about reviews and scores *)

(** The review document [add_review] stores. *)
Definition stored_review (place_id : string) (payload : NewReview.t) (e : env) : Doc Review.t :=
  mkDoc (fst e) (snd e)
    (Review.mk (NewReview.user_id payload) place_id (NewReview.rating payload)
       (NewReview.safety_tags payload) (NewReview.comment payload)
       (NewReview.night_safe payload) (NewReview.harassment payload)).

(** The database a successful [add_review] leaves. *)
Definition reviewed (db : Database) (oid : Bson.ObjectId) (place_id : string)
    (payload : NewReview.t) (e : env) : Database :=
  let db1 := set_review db (Collection.insert_one (review db) (stored_review place_id payload e)) in
  set_place db1
    (Collection.update_one (place db1) (Collection.by_id oid)
       (Place.set_safety_score
          (rounded_mean (ratings_of db place_id ++ [NewReview.rating payload])))).

(** A float of the form [mant * 2 ^ (- s)] whose value lies between 1 and 5. *)
Definition between_1_5 (f : Float64.t) : Prop :=
  exists s, 0 <= s <= 52 /\ Float64.expo f = - s
            /\ 2 ^ s <= Float64.mant f <= 5 * 2 ^ s.

(** The place documents [seed_sample] stores. *)
Definition seeded_places (e1 e2 e3 : env) : list (Doc Place.t) :=
  map (fun pe => mkDoc (fst (snd pe)) (snd (snd pe)) (fst pe)) (combine samples [e1; e2; e3]).

Definition seed_scores : list Float64.t := [Float64.f4_7; Float64.f4_9; Float64.f4_4].

(** The score of a place agrees with its reviews: their rounded mean when it
    has some, one of the seed scores when it has none. *)
Definition score_agrees (db : Database) (p : Doc Place.t) : Prop :=
  match ratings_of db (Bson.str (_id p)) with
  | [] => In (Place.safety_score (fields p)) seed_scores
  | _ :: _ => Place.safety_score (fields p) = rounded_mean (ratings_of db (Bson.str (_id p)))
  end.

Definition review_wellformed (db : Database) (r : Doc Review.t) : Prop :=
  Review.valid (fields r) = true
  /\ In (Review.place_id (fields r)) (map (@_id _) (place db)).

Record invariant (db : Database) : Prop := mkInvariant {
  inv_ids : NoDup (map (@_id _) (place db));
  inv_reviews : Forall (review_wellformed db) (review db);
  inv_scores : Forall (score_agrees db) (place db);
  inv_saved : Forall (fun u => NoDup (User.saved_places (fields u))) (user db)
}.

(* ------------------------------------------------------------------ *)
(** ** Further notions: identifiers *)

(** No character of [s] is a blank that [bytes.fromhex] skips. *)
Fixpoint blank_free (s : string) : bool :=
  match s with
  | EmptyString => true
  | String c s' => negb (Bson.is_space c) && blank_free s'
  end.

(* ------------------------------------------------------------------ *)
(** ** Further notions: reviews and places *)

(** The reviews [GET /places/{place_id}/reviews] lists (nothing on an error). *)
Definition reviews_listed (db : Database) (place_id : string) : list (Serialized Review.t) :=
  match fst (list_reviews (Some db) place_id) with
  | Ok l => l
  | Raise _ => []
  end.


Definition f1_0 : Float64.t := Float64.of_ratio 1 1.

(* ------------------------------------------------------------------ *)
(** ** [GET /test]

    The diagnostic report.  What the handler asks of the outside is an
    argument: the name of the database ([None] when the handle has no [name]
    attribute), the answer of [db.list_collection_names()] (the collection
    names, or the text of the exception it raised) and the two environment
    variables.  Reading the name does not raise, so the outer [except] of the
    handler is never entered. *)

Module Diagnostics.

Record Response : Type := mkResponse {
  backend : string;
  database : string;
  database_url : option string;
  database_name : option string;
  connection_status : string;
  collections : list string
}.

(** A byte that continues a character of a UTF-8 text ([10xxxxxx]). *)
Definition continuation (c : ascii) : bool :=
  (Nat.leb 128 (nat_of_ascii c) && Nat.leb (nat_of_ascii c) 191)%bool.

(** The first [n] characters of a UTF-8 text, each with all its bytes. *)
Fixpoint first_chars (n : nat) (s : string) : string :=
  match s with
  | EmptyString => EmptyString
  | String c s' =>
      if continuation c then String c (first_chars n s')
      else match n with
           | O => EmptyString
           | S n' => String c (first_chars n' s')
           end
  end.

(** [str(e)[:50]]: the first fifty characters. *)
Definition first50 (s : string) : string := first_chars 50 s.

(** Truthiness of [os.getenv(...)]. *)
Definition is_set (v : option string) : bool :=
  match v with
  | Some s => Text.truthy s
  | None => false
  end.

Definition test_database (db : option Database) (name : option string)
    (list_collection_names : string + list string)
    (DATABASE_URL DATABASE_NAME : option string) : Response :=
  let response :=
    mkResponse "✅ Running" "❌ Not Available" None None "Not Connected" [] in
  let response :=
    match db with
    | Some _ =>
        let response :=
          mkResponse (backend response) "✅ Available" (Some "✅ Configured")
            (Some match name with Some n => n | None => "✅ Connected" end)
            "Connected" (collections response) in
        match list_collection_names with
        | inr names =>
            mkResponse (backend response) "✅ Connected & Working" (database_url response)
              (database_name response) (connection_status response) (firstn 10 names)
        | inl e =>
            mkResponse (backend response) ("⚠️  Connected but Error: " ++ first50 e)
              (database_url response) (database_name response)
              (connection_status response) (collections response)
        end
    | None =>
        mkResponse (backend response) "⚠️  Available but not initialized"
          (database_url response) (database_name response)
          (connection_status response) (collections response)
    end in
  let response :=
    mkResponse (backend response) (database response)
      (Some (if is_set DATABASE_URL then "✅ Set" else "❌ Not Set"))
      (database_name response) (connection_status response) (collections response) in
  let response :=
    mkResponse (backend response) (database response) (database_url response)
      (Some (if is_set DATABASE_NAME then "✅ Set" else "❌ Not Set"))
      (connection_status response) (collections response) in
  response.

End Diagnostics.

(* ------------------------------------------------------------------ *)
(** ** Further notions: users *)

(** The user document a signup stores. *)
Definition new_user (payload : Signup.t) (e : env) : Doc User.t :=
  mkDoc (fst e) (snd e)
    (User.mk (Signup.name payload) (Signup.email payload) (Signup.photo payload) [] []).

(** The identifiers of the stored users are well formed and distinct. *)
Definition user_ids_ok (db : Database) : Prop :=
  Forall (fun u => Bson.wellformed (_id u) = true) (user db)
  /\ NoDup (map (@_id _) (user db)).

(** The user of the examples after saving two places. *)
Definition saved_db : Database :=
  step (step signed_up_db (PostSave oid4 (SavePlace.mk oid1))) (PostSave oid4 (SavePlace.mk oid2)).

(* ================================================================== *)
(** * Properties *)

(** Unfolds the handler monad. *)
Ltac run_handler :=
  unfold with_db, create_document, objid, bind, ret, raise, gets, modify in *.

(** ** Collections *)

Section CollectionFacts.
Variable A : Type.
Implicit Types (c : list (Doc A)) (filt : Doc A -> bool) (upd : A -> A).

Lemma update_one_no_match c filt upd :
  Collection.find_one c filt = None -> Collection.update_one c filt upd = c.
Proof.
  induction c as [|d c IH]; simpl; intros H; [reflexivity|].
  destruct (filt d); [discriminate|]. now rewrite IH.
Qed.

Lemma update_one_fixed c filt upd d :
  Collection.find_one c filt = Some d -> upd (fields d) = fields d ->
  Collection.update_one c filt upd = c.
Proof.
  induction c as [|x c IH]; simpl; intros H E; [reflexivity|].
  destruct (filt x).
  - injection H as ->. rewrite E. now destruct d.
  - now rewrite IH.
Qed.

Lemma find_one_update_one c oid upd :
  Collection.find_one (Collection.update_one c (Collection.by_id oid) upd) (Collection.by_id oid)
  = match Collection.find_one c (Collection.by_id oid) with
    | Some d => Some (mkDoc (_id d) (created_at d) (upd (fields d)))
    | None => None
    end.
Proof.
  induction c as [|d c IH]; simpl; [reflexivity|].
  destruct (Collection.by_id oid d) eqn:E; simpl.
  - unfold Collection.by_id in *. simpl. now rewrite E.
  - now rewrite E, IH.
Qed.

Lemma find_one_some c filt d :
  Collection.find_one c filt = Some d -> In d c /\ filt d = true.
Proof. apply find_some. Qed.

Lemma find_app c (d : Doc A) filt :
  Collection.find (Collection.insert_one c d) filt
  = (Collection.find c filt ++ (if filt d then [d] else []))%list.
Proof.
  unfold Collection.find, Collection.insert_one. rewrite filter_app. simpl.
  now destruct (filt d).
Qed.

Lemma find_one_insert_one c (d : Doc A) filt :
  Collection.find_one (Collection.insert_one c d) filt
  = match Collection.find_one c filt with
    | Some x => Some x
    | None => if filt d then Some d else None
    end.
Proof.
  unfold Collection.find_one, Collection.insert_one.
  induction c as [|x c IH]; simpl; [reflexivity|].
  destruct (filt x); [reflexivity|apply IH].
Qed.

(** *** Sorting a cursor *)

Variable key : Doc A -> Z.

Lemma insert_desc_perm d c :
  Permutation (d :: c) (Collection.insert_desc key d c).
Proof.
  induction c as [|x c IH]; simpl; [apply Permutation_refl|].
  destruct (key x <=? key d).
  - apply Permutation_refl.
  - eapply perm_trans; [apply perm_swap|]. now apply perm_skip.
Qed.

Lemma sort_desc_perm c : Permutation c (Collection.sort_desc key c).
Proof.
  induction c as [|d c IH]; simpl; [constructor|].
  eapply perm_trans; [apply perm_skip, IH|]. apply insert_desc_perm.
Qed.

Let desc (a b : Doc A) : Prop := key b <= key a.

Lemma insert_desc_sorted d c :
  StronglySorted desc c -> StronglySorted desc (Collection.insert_desc key d c).
Proof.
  induction 1 as [|x c Hs IH Hx]; simpl.
  - constructor; constructor.
  - destruct (key x <=? key d) eqn:E.
    + apply Z.leb_le in E. constructor.
      * now constructor.
      * constructor; [exact E|].
        rewrite Forall_forall in *. intros y Hy. specialize (Hx y Hy).
        unfold desc in *. lia.
    + apply Z.leb_gt in E. constructor; [exact IH|].
      rewrite Forall_forall in *. intros y Hy.
      apply (Permutation_in _ (Permutation_sym (insert_desc_perm d c))) in Hy.
      destruct Hy as [<-|Hy]; [unfold desc; lia|now apply Hx].
Qed.

Lemma sort_desc_sorted c : StronglySorted desc (Collection.sort_desc key c).
Proof.
  induction c as [|d c IH]; simpl; [constructor|]. now apply insert_desc_sorted.
Qed.
End CollectionFacts.

(** ** The quiz *)

Lemma quiz_score_claimed ans : quiz_score ans = claimed_quiz_score ans.
Proof.
  unfold quiz_score, claimed_quiz_score, Text.mem; cbn [existsb].
  destruct (String.eqb (QuizAnswer.comfort_level ans) "high"),
           (String.eqb (QuizAnswer.comfort_level ans) "medium"),
           (String.eqb (QuizAnswer.solo_experience ans) "5+"),
           (String.eqb (QuizAnswer.solo_experience ans) "2-4"),
           (String.eqb (QuizAnswer.night_travel ans) "comfortable"),
           (existsb (String.eqb "crowds") (QuizAnswer.anxiety_triggers ans)),
           (String.eqb (QuizAnswer.transport_confidence ans) "metro"),
           (String.eqb (QuizAnswer.transport_confidence ans) "ride-share");
    reflexivity.
Qed.

Lemma quiz_verdict_claimed score :
  quiz_verdict score = (claimed_persona score, claimed_recommendations score).
Proof.
  unfold quiz_verdict, claimed_persona, claimed_recommendations.
  destruct (6 <=? score); [reflexivity|]. now destruct (4 <=? score).
Qed.

(** C3. [evaluate_quiz] answers with a persona and a recommendation list that
    are a function of the five answers alone: the score is the sum of the
    points the specification lists, the persona follows from the thresholds 6
    and 4, and the two inputs of testable property 6 give "Trailblazer" and
    "Cautious Explorer" with their lists, whatever the user, the store and
    the identifier assigned. *)
Theorem evaluate_quiz_deterministic :
  (forall ans user_id e db,
      fst (evaluate_quiz ans user_id e db)
      = Ok (mkQuizResponse (Bson.str (fst e))
              (claimed_persona (claimed_quiz_score ans))
              (claimed_recommendations (claimed_quiz_score ans))))
  /\ (forall user_id e db,
         fst (evaluate_quiz trailblazer_answers user_id e db)
         = Ok (mkQuizResponse (Bson.str (fst e)) "Trailblazer" ["Singapore"; "Lisbon"; "Copenhagen"]))
  /\ (forall user_id e db,
         fst (evaluate_quiz cautious_answers user_id e db)
         = Ok (mkQuizResponse (Bson.str (fst e)) "Cautious Explorer" ["Reykjavik"; "Zurich"; "Taipei"])).
Proof.
  split; [|split]; intros.
  - unfold evaluate_quiz. rewrite quiz_verdict_claimed, quiz_score_claimed.
    reflexivity.
  - reflexivity.
  - reflexivity.
Qed.

(** ** Reviews: the error paths *)

Lemma set_user_same db : set_user db (user db) = db.
Proof. now destruct db. Qed.

Lemma references_place_false db place_id oid :
  references_place db place_id = false ->
  Bson.parse place_id = Some oid ->
  Collection.find_one (place db) (Collection.by_id oid) = None.
Proof.
  unfold references_place, score_of. intros H E. rewrite E in H.
  now destruct (Collection.find_one (place db) (Collection.by_id oid)).
Qed.

(** C4 (amended). When [place_id] designates no stored place, [add_review]
    raises and leaves the database as it was: no review is inserted and no
    place is modified.  The exception is 404 "Place not found" when
    [place_id] reads as an identifier, and 400 "Invalid ID format" when it
    does not. *)
Theorem add_review_unknown_place db place_id payload e :
  references_place db place_id = false ->
  add_review (Some db) place_id payload e
  = (Raise match Bson.parse place_id with
           | Some _ => HTTPException 404 "Place not found"
           | None => HTTPException 400 "Invalid ID format"
           end,
     Some db).
Proof.
  intros H. unfold add_review. run_handler.
  destruct (Bson.parse place_id) as [oid|] eqn:E; [|reflexivity].
  now rewrite (references_place_false db place_id H E).
Qed.

Lemma add_review_unknown_place_witness :
  references_place seeded_db oid4 = false
  /\ add_review (Some seeded_db) oid4 (review_body 3) (oid5, 1)
     = (Raise (HTTPException 404 "Place not found"), Some seeded_db).
Proof.
  split; [reflexivity|].
  exact (add_review_unknown_place seeded_db oid4 (review_body 3) (oid5, 1) eq_refl).
Defined.

(** C4 as stated fails: a [place_id] that is no identifier designates no
    place, and the exception is then 400 "Invalid ID format", not 404. *)
Lemma add_review_malformed_id_not_404 :
  references_place seeded_db "xyz" = false
  /\ fst (add_review (Some seeded_db) "xyz" (review_body 3) (oid5, 1))
     = Raise (HTTPException 400 "Invalid ID format")
  /\ fst (add_review (Some seeded_db) "xyz" (review_body 3) (oid5, 1))
     <> Raise (HTTPException 404 "Place not found").
Proof.
  split; [reflexivity|]. split; [reflexivity|]. discriminate.
Qed.

Lemma rating_out_of_range_invalid rating :
  rating < 1 \/ 5 < rating -> ((1 <=? rating) && (rating <=? 5))%bool = false.
Proof.
  intros [H|H].
  - apply Z.leb_gt in H. now rewrite H.
  - apply Z.leb_gt in H. rewrite H. apply andb_false_r.
Qed.

(** C5. A review whose rating is below 1 or above 5 is rejected with a
    validation error by the route, before the handler runs, and the database
    stays as it was; the handler itself, were it given such a payload, raises
    too without writing. *)
Theorem add_review_rating_bound db place_id body e :
  NewReview.rating body < 1 \/ 5 < NewReview.rating body ->
  route_add_review db place_id body e = (Raise (ValidationError "NewReview"), db)
  /\ is_ok (fst (add_review db place_id body e)) = false
  /\ db_after (add_review db place_id body e) = db.
Proof.
  intros H. apply rating_out_of_range_invalid in H.
  split.
  - unfold route_add_review, NewReview.valid. now rewrite H.
  - unfold add_review, db_after. destruct db as [d|]; [|split; reflexivity].
    run_handler. unfold Review.valid. cbn [Review.rating].
    destruct (Bson.parse place_id) as [oid|]; [|split; reflexivity].
    destruct (Collection.find_one (place d) (Collection.by_id oid));
      [|split; reflexivity].
    rewrite H. split; reflexivity.
Qed.

Lemma add_review_rating_bound_witness :
  (NewReview.rating (review_body 0) < 1 \/ 5 < NewReview.rating (review_body 0))
  /\ (NewReview.rating (review_body 6) < 1 \/ 5 < NewReview.rating (review_body 6))
  /\ route_add_review (Some seeded_db) oid1 (review_body 0) (oid5, 1)
     = (Raise (ValidationError "NewReview"), Some seeded_db)
  /\ route_add_review (Some seeded_db) oid1 (review_body 6) (oid5, 1)
     = (Raise (ValidationError "NewReview"), Some seeded_db).
Proof.
  assert (H0 : NewReview.rating (review_body 0) < 1 \/ 5 < NewReview.rating (review_body 0))
    by (left; reflexivity).
  assert (H6 : NewReview.rating (review_body 6) < 1 \/ 5 < NewReview.rating (review_body 6))
    by (right; reflexivity).
  split; [exact H0|]. split; [exact H6|]. split.
  - exact (proj1 (add_review_rating_bound (Some seeded_db) oid1 (review_body 0) (oid5, 1) H0)).
  - exact (proj1 (add_review_rating_bound (Some seeded_db) oid1 (review_body 6) (oid5, 1) H6)).
Defined.

(** ** Listing reviews *)

(** C8. [list_reviews] answers with the reviews whose [place_id] field is the
    one asked for, each exactly once, newest first; when there is none, for
    an unknown place too, the answer is the empty sequence and no error. *)
Theorem list_reviews_newest_first db place_id :
  exists docs,
    list_reviews (Some db) place_id = (Ok (map serialize_doc docs), Some db)
    /\ Permutation docs (filter (by_place_id place_id) (review db))
    /\ StronglySorted newest_first docs
    /\ (forall d, In d docs <-> In d (review db) /\ Review.place_id (fields d) = place_id)
    /\ (filter (by_place_id place_id) (review db) = [] -> docs = []).
Proof.
  exists (Collection.sort_desc (@created_at _)
            (Collection.find (review db) (by_place_id place_id))).
  split; [reflexivity|]. split; [|split; [|split]].
  - apply Permutation_sym, sort_desc_perm.
  - apply sort_desc_sorted.
  - intros d. unfold Collection.find. split.
    + intros H.
      apply (Permutation_in _ (Permutation_sym (sort_desc_perm _ _))) in H.
      apply filter_In in H. destruct H as [H1 H2]. split; [exact H1|].
      now apply String.eqb_eq in H2.
    + intros [H1 H2].
      apply (Permutation_in _ (sort_desc_perm _ _)).
      apply filter_In. split; [exact H1|]. now apply String.eqb_eq.
  - unfold Collection.find. now intros ->.
Qed.

(** ** Saving places *)

(** C10. For a [user_id] that reads as an identifier and designates no stored
    user, [save_place] changes nothing and answers with the absent document
    ([None], a null body), neither a user nor an error. *)
Theorem save_place_unknown_user db user_id oid payload :
  Bson.parse user_id = Some oid ->
  Collection.find_one (user db) (Collection.by_id oid) = None ->
  save_place (Some db) user_id payload = (Ok None, Some db).
Proof.
  intros Hp Hf. unfold save_place. run_handler. rewrite Hp.
  rewrite (update_one_no_match _ _ _ Hf), set_user_same.
  simpl. now rewrite Hf.
Qed.

Lemma save_place_unknown_user_witness :
  save_place (Some reviewed_db) oid4 (SavePlace.mk oid1) = (Ok None, Some reviewed_db).
Proof.
  exact (save_place_unknown_user reviewed_db oid4 (SavePlace.mk oid1) eq_refl eq_refl).
Defined.

(** ** Identifiers *)

Lemma lower_hex_char c :
  Bson.is_lower_hex c = true ->
  Bson.is_space c = false /\ Bson.is_hex c = true /\ Text.lower_char c = c.
Proof.
  destruct c as [[] [] [] [] [] [] [] []]; intros H; try discriminate H;
    repeat split; reflexivity.
Qed.

Lemma fromhex_lower_hex n : forall s,
  String.length s = (2 * n)%nat -> Bson.all_lower_hex s = true -> Bson.fromhex s = Some s.
Proof.
  induction n as [|n IH]; intros s Hl Hs.
  - destruct s; [reflexivity|discriminate].
  - destruct s as [|c [|d s]]; simpl in Hl; try lia.
    cbn [Bson.all_lower_hex] in Hs. apply andb_prop in Hs. destruct Hs as [Hc Hs].
    apply andb_prop in Hs. destruct Hs as [Hd Hs].
    destruct (lower_hex_char c Hc) as (Hc1 & Hc2 & Hc3).
    destruct (lower_hex_char d Hd) as (Hd1 & Hd2 & Hd3).
    cbn [Bson.fromhex]. rewrite Hc1, Hc2, Hd2. cbn [andb].
    rewrite IH; [now rewrite Hc3, Hd3| lia | exact Hs].
Qed.

(** An identifier the store assigned reads back as itself. *)
Lemma parse_str oid :
  Bson.wellformed oid = true -> Bson.parse (Bson.str oid) = Some oid.
Proof.
  unfold Bson.wellformed, Bson.parse, Bson.str. intros H.
  apply andb_prop in H. destruct H as [Hl Hs]. rewrite Hl.
  apply Nat.eqb_eq in Hl. now apply (fromhex_lower_hex 12).
Qed.

Lemma by_id_eq {A} oid (d : Doc A) : Collection.by_id oid d = true <-> _id d = oid.
Proof. unfold Collection.by_id. apply String.eqb_eq. Qed.

Lemma find_one_none {A} (c : list (Doc A)) filt :
  (forall d, In d c -> filt d = false) -> Collection.find_one c filt = None.
Proof.
  induction c as [|x c IH]; simpl; intros H; [reflexivity|].
  rewrite (H x (or_introl eq_refl)). apply IH. intros d Hd. apply H. now right.
Qed.

Lemma find_one_by_id_fresh {A} (c : list (Doc A)) oid :
  ~ In oid (map (@_id _) c) -> Collection.find_one c (Collection.by_id oid) = None.
Proof.
  intros H. apply find_one_none. intros d Hd.
  destruct (Collection.by_id oid d) eqn:E; [|reflexivity].
  apply by_id_eq in E. exfalso. apply H. rewrite <- E. now apply in_map.
Qed.

(** ** Signing up *)

Lemma signup_existing db payload e u :
  Collection.find_one (user db) (by_email (Signup.email payload)) = Some u ->
  signup (Some db) payload e = (Ok (Some (serialize_doc u)), Some db).
Proof. intros H. unfold signup. run_handler. now rewrite H. Qed.

Lemma signup_new db payload e :
  Collection.find_one (user db) (by_email (Signup.email payload)) = None ->
  Bson.wellformed (fst e) = true ->
  exists d,
    signup (Some db) payload e
    = (Ok (Some (serialize_doc d)),
       Some (set_user db (Collection.insert_one (user db)
               (mkDoc (fst e) (snd e)
                  (User.mk (Signup.name payload) (Signup.email payload)
                           (Signup.photo payload) [] [])))))
    /\ _id d = fst e.
Proof.
  intros Hn Hw. unfold signup. run_handler. rewrite Hn.
  rewrite (parse_str _ Hw). cbn [user set_user].
  rewrite find_one_insert_one.
  destruct (Collection.find_one (user db) (Collection.by_id (fst e))) as [d|] eqn:E.
  - exists d. split; [reflexivity|].
    apply find_one_some in E. now apply by_id_eq.
  - unfold Collection.by_id at 1. cbn [_id]. rewrite String.eqb_refl.
    eexists. split; reflexivity.
Qed.

Lemma signup_fresh db payload e :
  Collection.find_one (user db) (by_email (Signup.email payload)) = None ->
  Bson.wellformed (fst e) = true ->
  ~ In (fst e) (map (@_id _) (user db)) ->
  signup (Some db) payload e
  = (Ok (Some (serialize_doc (new_user payload e))),
     Some (set_user db (user db ++ [new_user payload e]))).
Proof.
  intros Hn Hw Hfresh. unfold signup. run_handler. rewrite Hn.
  rewrite (parse_str _ Hw). cbn [user set_user].
  rewrite find_one_insert_one, (find_one_by_id_fresh _ _ Hfresh).
  unfold Collection.by_id. cbn [_id]. rewrite String.eqb_refl. reflexivity.
Qed.

Lemma find_one_none_find {A} (c : list (Doc A)) filt :
  Collection.find_one c filt = None -> Collection.find c filt = [].
Proof.
  unfold Collection.find_one, Collection.find.
  induction c as [|x c IH]; simpl; [reflexivity|].
  destruct (filt x); [discriminate|exact IH].
Qed.

Lemma find_one_some_find {A} (c : list (Doc A)) filt d :
  Collection.find_one c filt = Some d -> (1 <= List.length (Collection.find c filt))%nat.
Proof.
  unfold Collection.find_one, Collection.find.
  induction c as [|x c IH]; simpl; [discriminate|].
  destruct (filt x); simpl; [lia|exact IH].
Qed.

(** C7. Two signups with the same email, one after the other, answer with
    the same user, a stored one with that email, and the second call writes
    nothing.  When a user with that very email is already stored, the first
    call answers with the first such document as it is and writes nothing
    either; otherwise it appends exactly one user, made of the payload, and
    answers with it.  Either way the number of stored users with that email
    is afterwards what it was, or one where it was none.  The identifier the
    store assigns on insert is taken to be a well-formed [ObjectId] that no
    stored user has. *)
Theorem signup_idempotent db p1 p2 e1 e2 :
  Signup.email p1 = Signup.email p2 ->
  Bson.wellformed (fst e1) = true ->
  ~ In (fst e1) (map (@_id _) (user db)) ->
  exists d db1,
    signup (Some db) p1 e1 = (Ok (Some (serialize_doc d)), Some db1)
    /\ signup (Some db1) p2 e2 = (Ok (Some (serialize_doc d)), Some db1)
    /\ Collection.find_one (user db1) (by_email (Signup.email p1)) = Some d
    /\ match Collection.find_one (user db) (by_email (Signup.email p1)) with
       | Some x => d = x /\ db1 = db
       | None => d = new_user p1 e1 /\ db1 = set_user db (user db ++ [new_user p1 e1])
       end
    /\ List.length (Collection.find (user db1) (by_email (Signup.email p1)))
       = Nat.max 1 (List.length (Collection.find (user db) (by_email (Signup.email p1)))).
Proof.
  intros He Hw Hfresh.
  destruct (Collection.find_one (user db) (by_email (Signup.email p1))) as [x|] eqn:E.
  - exists x, db. split; [now apply signup_existing|]. split; [|split; [|split]].
    + apply signup_existing. now rewrite <- He.
    + exact E.
    + now split.
    + apply find_one_some_find in E. lia.
  - set (new := new_user p1 e1).
    assert (F : Collection.find_one (user (set_user db (user db ++ [new])))
                  (by_email (Signup.email p1)) = Some new).
    { cbn [user set_user]. fold (Collection.insert_one (user db) new).
      rewrite find_one_insert_one, E.
      unfold by_email, new, new_user. cbn [fields User.email]. now rewrite String.eqb_refl. }
    exists new, (set_user db (user db ++ [new])).
    split; [now apply signup_fresh|]. split; [|split; [|split]].
    + apply signup_existing. now rewrite <- He.
    + exact F.
    + now split.
    + cbn [user set_user]. fold (Collection.insert_one (user db) new).
      rewrite find_app, (find_one_none_find _ _ E).
      unfold by_email at 1, new at 1, new_user. cbn [fields User.email].
      rewrite String.eqb_refl. reflexivity.
Qed.

Lemma signup_idempotent_witness :
  exists d db1,
    signup (Some seeded_db) (Signup.mk "Ana" "ana@example.org" None) (oid4, 300)
    = (Ok (Some (serialize_doc d)), Some db1)
    /\ signup (Some db1) (Signup.mk "Ana Maria" "ana@example.org" None) (oid5, 301)
       = (Ok (Some (serialize_doc d)), Some db1)
    /\ Collection.find_one (user db1) (by_email "ana@example.org") = Some d
    /\ (d = ana /\ db1 = signed_up_db)
    /\ List.length (Collection.find (user db1) (by_email "ana@example.org")) = 1%nat.
Proof.
  exact (@signup_idempotent seeded_db (Signup.mk "Ana" "ana@example.org" None)
           (Signup.mk "Ana Maria" "ana@example.org" None) (oid4, 300) (oid5, 301)
           eq_refl eq_refl (fun H : In oid4 [] => H)).
Defined.

(** ** Saving places *)

Lemma mem_In x xs : Text.mem x xs = true <-> In x xs.
Proof.
  unfold Text.mem. rewrite existsb_exists. split.
  - intros (y & Hy & E). apply String.eqb_eq in E. now subst.
  - intros H. exists x. split; [exact H|apply String.eqb_refl].
Qed.

Lemma addToSet_present x xs : In x xs -> addToSet x xs = xs.
Proof. intros H. unfold addToSet. apply mem_In in H. now rewrite H. Qed.

Lemma addToSet_In x xs : In x (addToSet x xs).
Proof.
  unfold addToSet. destruct (Text.mem x xs) eqn:E.
  - now apply mem_In.
  - apply in_or_app. right. now left.
Qed.

Lemma addToSet_NoDup x xs : NoDup xs -> NoDup (addToSet x xs).
Proof.
  intros H. unfold addToSet. destruct (Text.mem x xs) eqn:E; [exact H|].
  apply (Permutation_NoDup (Permutation_cons_append xs x)).
  constructor; [|exact H].
  intros Hin. apply mem_In in Hin. congruence.
Qed.

Lemma addToSet_once x xs :
  NoDup xs -> count_occ string_dec (addToSet x xs) x = 1%nat.
Proof.
  intros H. apply NoDup_count_occ'; [now apply addToSet_NoDup|apply addToSet_In].
Qed.

Lemma addToSet_saved_places_present x u :
  In x (User.saved_places u) -> addToSet_saved_places x u = u.
Proof.
  intros H. unfold addToSet_saved_places. rewrite (addToSet_present _ _ H).
  now destruct u.
Qed.

Lemma save_place_existing db user_id oid u payload :
  Bson.parse user_id = Some oid ->
  Collection.find_one (user db) (Collection.by_id oid) = Some u ->
  save_place (Some db) user_id payload
  = (Ok (Some (serialize_doc
                 (mkDoc (_id u) (created_at u)
                    (addToSet_saved_places (SavePlace.place_id payload) (fields u))))),
     Some (set_user db (Collection.update_one (user db) (Collection.by_id oid)
                          (addToSet_saved_places (SavePlace.place_id payload))))).
Proof.
  intros Hp Hf. unfold save_place. run_handler. rewrite Hp.
  cbn [user set_user]. now rewrite find_one_update_one, Hf.
Qed.

(** [update_one] writes what the update makes of the first match. *)
Lemma update_one_first {A} (c : list (Doc A)) filt upd d :
  Collection.find_one c filt = Some d ->
  Collection.update_one c filt upd = Collection.update_one c filt (fun _ => upd (fields d)).
Proof.
  induction c as [|x c IH]; simpl; intros H; [reflexivity|].
  destruct (filt x).
  - injection H as ->. reflexivity.
  - now rewrite IH.
Qed.

(** C9. For a stored user whose [saved_places] holds no duplicate, two calls
    of [save_place] with the same [place_id] leave the identifier exactly
    once in the stored [saved_places].  The first call answers with the user
    as it is then stored: [saved_places] is what it was when [place_id] was
    in it, and what it was followed by [place_id] otherwise, the other
    fields are kept, and the database differs from the one before in the
    fields of that one user document at most.  The second call answers as
    the first and changes nothing; and a call whose [place_id] is already
    saved leaves the database as it was. *)
Theorem save_place_idempotent db user_id oid u payload :
  Bson.parse user_id = Some oid ->
  Collection.find_one (user db) (Collection.by_id oid) = Some u ->
  NoDup (User.saved_places (fields u)) ->
  exists d1 db1,
    save_place (Some db) user_id payload = (Ok (Some (serialize_doc d1)), Some db1)
    /\ save_place (Some db1) user_id payload = (Ok (Some (serialize_doc d1)), Some db1)
    /\ Collection.find_one (user db1) (Collection.by_id oid) = Some d1
    /\ count_occ string_dec (User.saved_places (fields d1)) (SavePlace.place_id payload) = 1%nat
    /\ d1 = mkDoc (_id u) (created_at u)
              (User.mk (User.name (fields u)) (User.email (fields u)) (User.photo (fields u))
                 (if in_dec string_dec (SavePlace.place_id payload) (User.saved_places (fields u))
                  then User.saved_places (fields u)
                  else User.saved_places (fields u) ++ [SavePlace.place_id payload])%list
                 (User.saved_cities (fields u)))
    /\ db1 = set_user db
               (Collection.update_one (user db) (Collection.by_id oid) (fun _ => fields d1))
    /\ (In (SavePlace.place_id payload) (User.saved_places (fields u)) -> db1 = db /\ d1 = u).
Proof.
  intros Hp Hf Hn.
  set (x := SavePlace.place_id payload).
  set (u' := mkDoc (_id u) (created_at u) (addToSet_saved_places x (fields u))).
  set (db1 := set_user db (Collection.update_one (user db) (Collection.by_id oid)
                             (addToSet_saved_places x))).
  assert (Hf1 : Collection.find_one (user db1) (Collection.by_id oid) = Some u').
  { unfold db1. cbn [user set_user]. now rewrite find_one_update_one, Hf. }
  assert (Hin : In x (User.saved_places (fields u'))).
  { unfold u'. cbn [fields addToSet_saved_places User.saved_places]. apply addToSet_In. }
  exists u', db1. split; [|split; [|split; [|split; [|split; [|split]]]]].
  - now apply save_place_existing.
  - rewrite (save_place_existing db1 user_id payload Hp Hf1). fold x.
    assert (E : addToSet_saved_places x (fields u') = fields u')
      by now apply addToSet_saved_places_present.
    rewrite E, (update_one_fixed _ _ _ Hf1 E), set_user_same. now destruct u'.
  - exact Hf1.
  - unfold u'. cbn [fields addToSet_saved_places User.saved_places].
    now apply addToSet_once.
  - unfold u', addToSet_saved_places, addToSet. do 2 f_equal.
    destruct (in_dec string_dec x (User.saved_places (fields u))) as [H|H].
    + apply mem_In in H. now rewrite H.
    + destruct (Text.mem x (User.saved_places (fields u))) eqn:E; [|reflexivity].
      apply mem_In in E. contradiction.
  - unfold db1. f_equal. apply (update_one_first _ _ _ Hf).
  - intros H. fold x in H.
    assert (E : addToSet_saved_places x (fields u) = fields u)
      by now apply addToSet_saved_places_present.
    split.
    + unfold db1. now rewrite (update_one_fixed _ _ _ Hf E), set_user_same.
    + unfold u'. rewrite E. now destruct u.
Qed.

Lemma save_place_idempotent_witness :
  exists d1 db1,
    save_place (Some signed_up_db) oid4 (SavePlace.mk oid1)
    = (Ok (Some (serialize_doc d1)), Some db1)
    /\ save_place (Some db1) oid4 (SavePlace.mk oid1) = (Ok (Some (serialize_doc d1)), Some db1)
    /\ Collection.find_one (user db1) (Collection.by_id oid4) = Some d1
    /\ count_occ string_dec (User.saved_places (fields d1)) oid1 = 1%nat
    /\ d1 = mkDoc oid4 300 (User.mk "Ana" "ana@example.org" None [oid1] [])
    /\ db1 = set_user signed_up_db
               (Collection.update_one (user signed_up_db) (Collection.by_id oid4)
                  (fun _ => fields d1))
    /\ (In oid1 (User.saved_places (fields ana)) -> db1 = signed_up_db /\ d1 = ana).
Proof.
  exact (@save_place_idempotent signed_up_db oid4 oid4 ana (SavePlace.mk oid1)
           eq_refl eq_refl (NoDup_nil _)).
Defined.

(** ** Reviews: the score *)

Lemma references_place_true db place_id :
  references_place db place_id = true ->
  exists oid p, Bson.parse place_id = Some oid
                /\ Collection.find_one (place db) (Collection.by_id oid) = Some p.
Proof.
  unfold references_place, score_of.
  destruct (Bson.parse place_id) as [oid|]; [|discriminate].
  destruct (Collection.find_one (place db) (Collection.by_id oid)) as [p|] eqn:E;
    [|discriminate].
  intros _. now exists oid, p.
Qed.

Lemma ratings_of_insert db place_id payload e :
  ratings_of (set_review db (Collection.insert_one (review db) (stored_review place_id payload e)))
             place_id
  = (ratings_of db place_id ++ [NewReview.rating payload])%list.
Proof.
  unfold ratings_of. cbn [review set_review]. rewrite find_app.
  unfold by_place_id at 2, stored_review. cbn [fields Review.place_id].
  rewrite String.eqb_refl, map_app. reflexivity.
Qed.

Lemma add_review_ok db place_id oid p payload e :
  Bson.parse place_id = Some oid ->
  Collection.find_one (place db) (Collection.by_id oid) = Some p ->
  NewReview.valid payload = true ->
  add_review (Some db) place_id payload e
  = (Ok (Bson.str (fst e)), Some (reviewed db oid place_id payload e)).
Proof.
  intros Hp Hf Hv. unfold add_review. run_handler. rewrite Hp, Hf.
  unfold Review.valid. cbn [Review.rating].
  unfold NewReview.valid in Hv. rewrite Hv.
  fold (stored_review place_id payload e).
  pose proof (ratings_of_insert db place_id payload e) as Hr.
  unfold ratings_of in Hr at 1. rewrite Hr.
  unfold reviewed.
  destruct (ratings_of db place_id ++ [NewReview.rating payload])%list eqn:E.
  - apply app_eq_nil in E. destruct E as [_ E]. discriminate E.
  - reflexivity.
Qed.

Lemma reviewed_ratings db oid place_id payload e :
  ratings_of (reviewed db oid place_id payload e) place_id
  = (ratings_of db place_id ++ [NewReview.rating payload])%list.
Proof. apply ratings_of_insert. Qed.

Lemma reviewed_score db oid place_id p payload e :
  Bson.parse place_id = Some oid ->
  Collection.find_one (place db) (Collection.by_id oid) = Some p ->
  score_of (reviewed db oid place_id payload e) place_id
  = Some (rounded_mean (ratings_of (reviewed db oid place_id payload e) place_id)).
Proof.
  intros Hp Hf. rewrite reviewed_ratings. unfold score_of. rewrite Hp.
  unfold reviewed. cbn [place set_place set_review].
  now rewrite find_one_update_one, Hf.
Qed.

Lemma reviewed_references db oid place_id p payload e :
  Bson.parse place_id = Some oid ->
  Collection.find_one (place db) (Collection.by_id oid) = Some p ->
  references_place (reviewed db oid place_id payload e) place_id = true.
Proof.
  intros Hp Hf. unfold references_place.
  now rewrite (reviewed_score db place_id payload e Hp Hf).
Qed.

(** What [add_review] computes: reviews posted one after the other under one
    text [place_id] that reads as a stored place's identifier, each with a
    rating from 1 to 5, all succeed, and when the last has answered the
    place's [safety_score] is the rounded mean of the ratings of the reviews
    whose [place_id] field is that very text, which are those stored before
    followed by the new ones. *)
Lemma add_review_score_converges db place_id calls :
  references_place db place_id = true ->
  Forall (fun c => NewReview.valid (fst c) = true) calls ->
  calls <> [] ->
  exists db',
    add_reviews (Some db) place_id calls
    = (map (fun c => Ok (Bson.str (fst (snd c)))) calls, Some db')
    /\ ratings_of db' place_id
       = (ratings_of db place_id ++ map (fun c => NewReview.rating (fst c)) calls)%list
    /\ score_of db' place_id = Some (rounded_mean (ratings_of db' place_id)).
Proof.
  intros Href Hv. revert db Href.
  induction Hv as [|[payload e] rest Hp Hrest IH]; intros db Href Hne; [congruence|].
  destruct (references_place_true db place_id Href) as (oid & p & Ho & Hf).
  cbn [add_reviews fst snd map]. unfold route_add_review. cbn [fst] in Hp. rewrite Hp.
  rewrite (add_review_ok db place_id payload e Ho Hf Hp).
  set (db1 := reviewed db oid place_id payload e).
  destruct rest as [|c rest'].
  - exists db1. cbn [add_reviews map]. split; [reflexivity|]. split.
    + apply reviewed_ratings.
    + now apply (reviewed_score db place_id payload e Ho Hf).
  - destruct (IH db1) as (db' & Hrun & Hrat & Hsc).
    + now apply (reviewed_references db place_id payload e Ho Hf).
    + discriminate.
    + exists db'. rewrite Hrun. split; [reflexivity|]. split; [|exact Hsc].
      rewrite Hrat. unfold db1. rewrite reviewed_ratings, <- app_assoc. reflexivity.
Qed.

Lemma add_review_score_converges_witness :
  exists db',
    add_reviews (Some seeded_db) oid1 [(review_body 5, (oid5, 200)); (review_body 4, (oid6, 201))]
    = ([Ok oid5; Ok oid6], Some db')
    /\ ratings_of db' oid1 = [5; 4]
    /\ score_of db' oid1 = Some (rounded_mean (ratings_of db' oid1)).
Proof.
  refine (@add_review_score_converges seeded_db oid1
            [(review_body 5, (oid5, 200)); (review_body 4, (oid6, 201))] eq_refl _ _).
  - repeat constructor.
  - discriminate.
Defined.

(** C1 (failing input). The handler finds the place by the [ObjectId] read from
    [place_id], and [ObjectId] reads hexadecimal digits of either case, but
    it files the review and collects the ratings to average by the text
    [place_id] as it came.  Two successful reviews for the first seeded
    place, rated 5 under the printed spelling of its identifier and 1 under
    the upper-case one, leave its [safety_score] at the rounded mean of the
    last review alone, 1.0, and not at that of the two reviews stored for the
    place, 3.0. *)
Theorem add_review_other_spelling :
  Bson.parse oid1_upper = Some oid1
  /\ route_add_review (Some seeded_db) oid1 (review_body 5) (oid5, 200)
     = (Ok oid5, Some respelled_db1)
  /\ route_add_review (Some respelled_db1) oid1_upper (review_body 1) (oid6, 201)
     = (Ok oid6, Some respelled_db2)
  /\ ratings_referencing respelled_db2 oid1 = [5; 1]
  /\ score_of respelled_db2 oid1 = Some (rounded_mean [1])
  /\ score_of respelled_db2 oid1
     <> Some (rounded_mean (ratings_referencing respelled_db2 oid1)).
Proof.
  repeat split; try reflexivity. intros H. vm_compute in H. discriminate H.
Qed.

(** ** The places directory *)




Lemma plain_ascii p : plain p = true -> Pcre.ascii_text p = true.
Proof.
  induction p as [|c p IH]; [reflexivity|]. cbn [plain Pcre.ascii_text].
  intros H. apply andb_prop in H. destruct H as [H Hp].
  apply andb_prop in H. destruct H as [Hc _]. now rewrite Hc, IH.
Qed.




















(** A parameter is sent to the server as a pattern: [.] in [city] stands for
    any character, so [L.sbon] finds the place in Lisbon, and a parameter
    with a metacharacter beyond the model has no answer in it. *)
Example list_places_pattern_parameter :
  option_map fst (list_places (Some seeded_db) (Some "L.sbon") None None)
  = Some (Ok (map serialize_doc
                (filter (claimed_place_match (Some "Lisbon") None None) (place seeded_db))))
  /\ filter (claimed_place_match (Some "L.sbon") None None) (place seeded_db) = []
  /\ list_places (Some seeded_db) (Some "Lis(bon") None None = None.
Proof. repeat split. Qed.

(** ** Floats between 1 and 5 *)

Lemma rne_ge n d k : 0 < d -> k * d <= n -> k <= Float64.rne n d.
Proof.
  intros Hd H. unfold Float64.rne.
  pose proof (Z.div_mod n d ltac:(lia)) as E.
  pose proof (Z.mod_pos_bound n d Hd) as B.
  assert (k <= n / d) by nia.
  destruct (2 * (n mod d) ?= d); [destruct (Z.even (n / d))| |]; lia.
Qed.

Lemma rne_le n d k : 0 < d -> n <= k * d -> Float64.rne n d <= k.
Proof.
  intros Hd H. unfold Float64.rne.
  pose proof (Z.div_mod n d ltac:(lia)) as E.
  pose proof (Z.mod_pos_bound n d Hd) as B.
  assert (Hq : n / d <= k) by nia.
  destruct (Z.eq_dec (n / d) k) as [Hk|Hk].
  - assert (Hr : n mod d = 0) by nia.
    assert (Hc : (2 * (n mod d) ?= d) = Lt) by (apply Z.compare_lt_iff; lia).
    rewrite Hc. lia.
  - destruct (2 * (n mod d) ?= d); [destruct (Z.even (n / d))| |]; lia.
Qed.

Lemma of_ratio_between n d :
  0 < d -> d <= n <= 5 * d -> between_1_5 (Float64.of_ratio n d).
Proof.
  intros Hd Hn. unfold Float64.of_ratio.
  replace (n ?= 0) with Gt by (symmetry; apply Z.compare_gt_iff; lia).
  unfold Float64.of_ratio_pos.
  set (e0 := Z.log2 n - Z.log2 d).
  assert (He0 : 0 <= e0 <= 3).
  { unfold e0. split.
    - pose proof (Z.log2_le_mono d n ltac:(lia)). lia.
    - pose proof (Z.log2_le_mono n (d * 2 ^ 3) ltac:(lia)) as H.
      rewrite Z.log2_mul_pow2 in H by lia. lia. }
  replace (0 <=? e0) with true by (symmetry; apply Z.leb_le; lia).
  set (e := if d * 2 ^ e0 <=? n then e0 else e0 - 1).
  assert (He : 0 <= e <= 3).
  { unfold e. destruct (d * 2 ^ e0 <=? n) eqn:F; [lia|].
    apply Z.leb_gt in F. destruct (Z.eq_dec e0 0) as [->|]; [|lia].
    change (2 ^ 0) with 1 in F. lia. }
  set (s := 52 - e).
  assert (Hs : 49 <= s <= 52) by (unfold s; lia).
  replace (0 <=? s) with true by (symmetry; apply Z.leb_le; lia).
  assert (Hp : 0 < 2 ^ s) by (apply Z.pow_pos_nonneg; lia).
  pose proof (@rne_ge (n * 2 ^ s) d (2 ^ s) Hd ltac:(nia)) as Hlo.
  pose proof (@rne_le (n * 2 ^ s) d (5 * 2 ^ s) Hd ltac:(nia)) as Hhi.
  set (m := Float64.rne (n * 2 ^ s) d) in *.
  clearbody m. clearbody s. clear e He.
  destruct (m =? 2 ^ 53) eqn:Hm.
  - apply Z.eqb_eq in Hm. exists (s - 1). cbn [Float64.expo Float64.mant].
    assert (Hs' : s = 51 \/ s = 52).
    { assert (Hc : s = 49 \/ s = 50 \/ s = 51 \/ s = 52) by lia.
      destruct Hc as [Hc|[Hc|[Hc|Hc]]]; [exfalso|exfalso|now left|now right];
        rewrite Hm, Hc in Hhi; vm_compute in Hhi; now apply Hhi. }
    destruct Hs' as [Hc|Hc]; rewrite Hc;
      (split; [lia|]); (split; [lia|]); split; now vm_compute.
  - exists s. cbn [Float64.expo Float64.mant]. split; [lia|]. split; [lia|]. lia.
Qed.

Lemma round2_between x : between_1_5 x -> between_1_5 (Float64.round2 x).
Proof.
  intros (s & Hs & He & Hm). unfold Float64.round2. rewrite He.
  assert (Hp : 0 < 2 ^ s) by (apply Z.pow_pos_nonneg; lia).
  apply of_ratio_between; [lia|].
  destruct (0 <=? - s) eqn:F.
  - apply Z.leb_le in F. assert (s = 0) as -> by lia.
    change (2 ^ (- 0)) with 1. change (2 ^ 0) with 1 in Hm. lia.
  - replace (- - s) with s by lia. split.
    + apply rne_ge; [exact Hp|nia].
    + apply rne_le; [exact Hp|nia].
Qed.

Lemma between_in_range f :
  between_1_5 f ->
  Float64.leb Float64.f0_0 f = true /\ Float64.leb f Float64.f5_0 = true.
Proof.
  intros (s & Hs & He & Hm).
  assert (Hp : 0 < 2 ^ s) by (apply Z.pow_pos_nonneg; lia).
  unfold Float64.leb. split.
  - cbn [Float64.f0_0 Float64.zero Float64.mant Float64.expo]. rewrite He.
    apply Z.leb_le. rewrite Z.mul_0_l. apply Z.mul_nonneg_nonneg; [lia|].
    apply Z.pow_nonneg. lia.
  - change Float64.f5_0 with (Float64.mk (5 * 2 ^ 50) (- 50)).
    cbn [Float64.mant Float64.expo]. rewrite He. apply Z.leb_le.
    destruct (Z.le_ge_cases s 50) as [H|H].
    + rewrite Z.min_r by lia.
      replace (- s - - 50) with (50 - s) by lia.
      replace (- 50 - - 50) with 0 by lia. rewrite Z.pow_0_r, Z.mul_1_r.
      replace (2 ^ 50) with (2 ^ s * 2 ^ (50 - s))
        by (rewrite <- Z.pow_add_r by lia; f_equal; lia).
      assert (0 < 2 ^ (50 - s)) by (apply Z.pow_pos_nonneg; lia). nia.
    + rewrite Z.min_l by lia.
      replace (- s - - s) with 0 by lia.
      replace (- 50 - - s) with (s - 50) by lia. rewrite Z.pow_0_r, Z.mul_1_r.
      replace (2 ^ s) with (2 ^ 50 * 2 ^ (s - 50)) in Hm
        by (rewrite <- Z.pow_add_r by lia; f_equal; lia).
      lia.
Qed.

Lemma sum_bounds rs :
  Forall (fun r => 1 <= r <= 5) rs -> len rs <= sum rs <= 5 * len rs.
Proof.
  unfold len. induction 1 as [|r rs Hr _ IH]; [simpl; lia|].
  cbn [sum fold_right List.length]. fold (sum rs). lia.
Qed.

(** The rounded mean of ratings from 1 to 5 lies between 1 and 5. *)
Lemma rounded_mean_between rs :
  rs <> [] -> Forall (fun r => 1 <= r <= 5) rs -> between_1_5 (rounded_mean rs).
Proof.
  intros Hne Hrs. unfold rounded_mean, Float64.truediv.
  apply round2_between, of_ratio_between.
  - unfold len. destruct rs; [congruence|]. simpl List.length. lia.
  - now apply sum_bounds.
Qed.

(** The rounding of the mean follows the binary value of the quotient: the
    mean 107/40 is just below 2.675 as a float, and rounds to 2.67. *)
Example rounded_mean_below_tie :
  Float64.round2 (Float64.truediv 107 40) = Float64.of_ratio 267 100.
Proof. reflexivity. Qed.

(** ** What each request does to the collections *)

Lemma step_seed db e1 e2 e3 :
  step db (PostSeed e1 e2 e3) = set_place db (place db ++ seeded_places e1 e2 e3).
Proof.
  destruct e1 as [o1 t1], e2 as [o2 t2], e3 as [o3 t3].
  unfold step, seed_sample, db_after, with_db.
  replace (forallb Place.valid samples) with true by (now vm_compute).
  unfold samples, seed_loop. run_handler. cbn [snd or_else place set_place].
  unfold Collection.insert_one, set_place. cbn [user place review quizresult].
  now rewrite <- !app_assoc.
Qed.

Lemma route_add_review_cases db place_id body e :
  route_add_review (Some db) place_id body e
  = (fst (route_add_review (Some db) place_id body e), Some db)
  \/ exists oid p,
       Bson.parse place_id = Some oid
       /\ Collection.find_one (place db) (Collection.by_id oid) = Some p
       /\ NewReview.valid body = true
       /\ route_add_review (Some db) place_id body e
          = (Ok (Bson.str (fst e)), Some (reviewed db oid place_id body e)).
Proof.
  unfold route_add_review. destruct (NewReview.valid body) eqn:Hv; [|now left].
  destruct (Bson.parse place_id) as [oid|] eqn:Hp.
  - destruct (Collection.find_one (place db) (Collection.by_id oid)) as [p|] eqn:Hf.
    + right. exists oid, p. repeat split; try assumption.
      now apply (add_review_ok db place_id body e Hp Hf).
    + left. unfold add_review. run_handler. now rewrite Hp, Hf.
  - left. unfold add_review. run_handler. now rewrite Hp.
Qed.

Lemma step_review db place_id body e :
  step db (PostReview place_id body e) = db
  \/ exists oid p,
       Bson.parse place_id = Some oid
       /\ Collection.find_one (place db) (Collection.by_id oid) = Some p
       /\ NewReview.valid body = true
       /\ step db (PostReview place_id body e) = reviewed db oid place_id body e.
Proof.
  unfold step, db_after.
  destruct (route_add_review_cases db place_id body e) as [H|(oid & p & Hp & Hf & Hv & H)];
    rewrite H; [now left|right].
  now exists oid, p.
Qed.

Lemma step_quiz db ans user_id e :
  place (step db (PostQuiz ans user_id e)) = place db
  /\ review (step db (PostQuiz ans user_id e)) = review db
  /\ user (step db (PostQuiz ans user_id e)) = user db.
Proof.
  unfold step, evaluate_quiz. destruct (quiz_verdict (quiz_score ans)). now run_handler.
Qed.

Lemma step_signup db payload e :
  place (step db (PostSignup payload e)) = place db
  /\ review (step db (PostSignup payload e)) = review db
  /\ (user (step db (PostSignup payload e)) = user db
      \/ user (step db (PostSignup payload e))
         = (user db ++ [mkDoc (fst e) (snd e)
                          (User.mk (Signup.name payload) (Signup.email payload)
                                   (Signup.photo payload) [] [])])%list).
Proof.
  unfold step, signup, db_after. run_handler.
  destruct (Collection.find_one (user db) (by_email (Signup.email payload)));
    [cbn; auto|].
  destruct (Bson.parse (Bson.str (fst e))); cbn; auto.
Qed.

Lemma step_save db user_id payload :
  place (step db (PostSave user_id payload)) = place db
  /\ review (step db (PostSave user_id payload)) = review db
  /\ (user (step db (PostSave user_id payload)) = user db
      \/ exists oid,
           user (step db (PostSave user_id payload))
           = Collection.update_one (user db) (Collection.by_id oid)
               (addToSet_saved_places (SavePlace.place_id payload))).
Proof.
  unfold step, save_place, db_after. run_handler.
  destruct (Bson.parse user_id) as [oid|]; cbn; [|auto].
  repeat split; try reflexivity. right. now exists oid.
Qed.

(** ** The invariant of a run *)

Lemma NoDup_app_disjoint {A} (l l' : list A) x :
  NoDup (l ++ l') -> In x l -> In x l' -> False.
Proof.
  induction l as [|a l IH]; simpl; intros Hn Hl Hl'; [exact Hl|].
  inversion Hn as [|? ? Ha Hn']; subst.
  destruct Hl as [->|Hl]; [|now apply IH].
  apply Ha, in_or_app. now right.
Qed.

Lemma update_one_ids {A} (c : list (Doc A)) filt upd :
  map (@_id _) (Collection.update_one c filt upd) = map (@_id _) c.
Proof.
  induction c as [|d c IH]; simpl; [reflexivity|].
  destruct (filt d); simpl; [reflexivity|now rewrite IH].
Qed.

(** With distinct identifiers, [update_one] on [{"_id": oid}] leaves the
    other documents alone and updates the one that has it. *)
Lemma update_one_by_id_spec {A} (c : list (Doc A)) oid upd d' :
  NoDup (map (@_id _) c) ->
  In d' (Collection.update_one c (Collection.by_id oid) upd) ->
  (In d' c /\ _id d' <> oid)
  \/ exists d, In d c /\ _id d = oid /\ d' = mkDoc (_id d) (created_at d) (upd (fields d)).
Proof.
  induction c as [|x c IH]; simpl; intros Hn Hin; [destruct Hin|].
  inversion Hn as [|? ? Hx Hn']; subst.
  destruct (Collection.by_id oid x) eqn:E.
  - apply by_id_eq in E. destruct Hin as [<-|Hin].
    + right. exists x. auto.
    + left. split; [now right|]. intros Hd. apply Hx. rewrite E, <- Hd. now apply in_map.
  - destruct Hin as [<-|Hin].
    + left. split; [now left|]. intros Hd. apply by_id_eq in Hd. congruence.
    + destruct (IH Hn' Hin) as [[H1 H2]|(d & H1 & H2 & H3)].
      * left. split; [now right|exact H2].
      * right. exists d. split; [now right|]. now split.
Qed.

Lemma update_one_Forall {A} (P : Doc A -> Prop) (c : list (Doc A)) filt upd :
  (forall d, P d -> P (mkDoc (_id d) (created_at d) (upd (fields d)))) ->
  Forall P c -> Forall P (Collection.update_one c filt upd).
Proof.
  intros Hupd. induction 1 as [|d c Hd Hc IH]; simpl; [constructor|].
  destruct (filt d); constructor; auto.
Qed.

Lemma ratings_of_review db db' x : review db = review db' -> ratings_of db x = ratings_of db' x.
Proof. unfold ratings_of. now intros ->. Qed.

Lemma score_agrees_review db db' p :
  review db = review db' -> score_agrees db p -> score_agrees db' p.
Proof. unfold score_agrees. intros H. now rewrite (ratings_of_review db db' _ H). Qed.

(** A request that leaves places and reviews alone keeps the invariant. *)
Lemma invariant_frame db db' :
  place db' = place db -> review db' = review db ->
  Forall (fun u => NoDup (User.saved_places (fields u))) (user db') ->
  invariant db -> invariant db'.
Proof.
  intros Hp Hr Hu [I1 I2 I3 I4]. constructor.
  - now rewrite Hp.
  - rewrite Hr. unfold review_wellformed in *. now rewrite Hp.
  - rewrite Hp. eapply Forall_impl; [|exact I3].
    intros p. apply score_agrees_review. now symmetry.
  - exact Hu.
Qed.

Lemma valid_rating r : Review.valid r = true -> 1 <= Review.rating r <= 5.
Proof.
  unfold Review.valid. intros H. apply andb_prop in H. destruct H as [H1 H2].
  apply Z.leb_le in H1, H2. lia.
Qed.

Lemma ratings_in_range db x :
  invariant db -> Forall (fun r => 1 <= r <= 5) (ratings_of db x).
Proof.
  intros [_ I2 _ _]. unfold ratings_of, Collection.find.
  apply Forall_map. apply Forall_forall. intros r Hr.
  apply filter_In in Hr. destruct Hr as [Hr _].
  rewrite Forall_forall in I2. now apply valid_rating, I2.
Qed.

(** No review is filed under an identifier that no place has. *)
Lemma ratings_of_unknown db x :
  invariant db -> ~ In x (map (@_id _) (place db)) -> ratings_of db x = [].
Proof.
  intros [_ I2 _ _] Hx. unfold ratings_of, Collection.find.
  rewrite Forall_forall in I2.
  induction (review db) as [|r rs IH]; [reflexivity|]. simpl.
  destruct (by_place_id x r) eqn:E.
  - exfalso. apply Hx. apply String.eqb_eq in E. rewrite <- E.
    now apply (I2 r (or_introl eq_refl)).
  - apply IH. intros y Hy. apply I2. now right.
Qed.

Lemma invariant_seed db e1 e2 e3 :
  admissible db (PostSeed e1 e2 e3) -> invariant db -> invariant (step db (PostSeed e1 e2 e3)).
Proof.
  intros Ha I. pose proof I as [I1 I2 I3 I4]. rewrite step_seed.
  assert (Hids : map (@_id _) (seeded_places e1 e2 e3) = [fst e1; fst e2; fst e3])
    by reflexivity.
  cbn [admissible] in Ha. rewrite <- Hids in Ha.
  constructor; cbn [place review user set_place].
  - now rewrite map_app.
  - eapply Forall_impl; [|exact I2]. intros r [H1 H2]. split; [exact H1|].
    cbn [place set_place]. rewrite map_app. apply in_or_app. now left.
  - apply Forall_app. split.
    + eapply Forall_impl; [|exact I3]. intros p. now apply score_agrees_review.
    + apply Forall_forall. intros p Hp. unfold score_agrees.
      rewrite (ratings_of_review _ db) by reflexivity.
      rewrite ratings_of_unknown; [|exact I|].
      * unfold seeded_places, samples, seed_scores in *. cbn in Hp.
        destruct Hp as [<-|[<-|[<-|[]]]]; cbn; auto.
      * intros Hin. unfold Bson.str in Hin.
        apply (NoDup_app_disjoint _ _ _ Ha Hin). now apply in_map.
  - exact I4.
Qed.

Lemma ratings_of_reviewed_other db oid place_id body e x :
  x <> place_id ->
  ratings_of (reviewed db oid place_id body e) x = ratings_of db x.
Proof.
  intros Hx. unfold ratings_of, reviewed. cbn [review set_review set_place].
  rewrite find_app. unfold by_place_id at 2, stored_review. cbn [fields Review.place_id].
  replace (String.eqb place_id x) with false
    by (symmetry; apply String.eqb_neq; congruence).
  now rewrite app_nil_r.
Qed.

Lemma invariant_reviewed db place_id p body e :
  Collection.find_one (place db) (Collection.by_id place_id) = Some p ->
  NewReview.valid body = true ->
  invariant db -> invariant (reviewed db place_id place_id body e).
Proof.
  intros Hf Hv I. pose proof I as [I1 I2 I3 I4].
  apply find_one_some in Hf. destruct Hf as [Hin Hid]. apply by_id_eq in Hid.
  constructor.
  - unfold reviewed. cbn [place set_place set_review]. now rewrite update_one_ids.
  - unfold reviewed, review_wellformed. cbn [place review set_place set_review].
    rewrite update_one_ids. apply Forall_app. split; [exact I2|].
    constructor; [|constructor]. split; [exact Hv|].
    cbn [stored_review fields Review.place_id]. rewrite <- Hid. now apply in_map.
  - apply Forall_forall. intros d' Hd'.
    unfold reviewed in Hd'. cbn [place set_place set_review] in Hd'.
    rewrite Forall_forall in I3.
    destruct (update_one_by_id_spec _ _ _ _ I1 Hd') as [[H1 H2]|(d & H1 & H2 & ->)].
    + specialize (I3 d' H1). unfold score_agrees in *. unfold Bson.str in *.
      now rewrite ratings_of_reviewed_other.
    + unfold score_agrees, Bson.str. cbn [_id fields]. rewrite H2.
      rewrite reviewed_ratings.
      destruct (ratings_of db place_id ++ [NewReview.rating body])%list eqn:E.
      * apply app_eq_nil in E. destruct E as [_ E]. discriminate E.
      * reflexivity.
  - exact I4.
Qed.

Lemma printed_form_parse place_id oid :
  printed_form place_id = true -> Bson.parse place_id = Some oid -> oid = place_id.
Proof.
  unfold printed_form. intros H E. rewrite E in H. now apply String.eqb_eq in H.
Qed.

Lemma invariant_step db r : admissible db r -> invariant db -> invariant (step db r).
Proof.
  intros Ha I. destruct r as [e1 e2 e3|place_id body e|ans user_id e|payload e|user_id payload].
  - now apply invariant_seed.
  - destruct (step_review db place_id body e) as [->|(oid & p & Hp & Hf & Hv & ->)];
      [exact I|].
    cbn [admissible] in Ha. rewrite (printed_form_parse _ Ha Hp) in *.
    eapply invariant_reviewed; eassumption.
  - destruct (step_quiz db ans user_id e) as (Hp & Hr & Hu).
    apply invariant_frame with (db := db); try assumption. rewrite Hu. apply I.
  - destruct (step_signup db payload e) as (Hp & Hr & [Hu|Hu]);
      apply invariant_frame with (db := db); try assumption; rewrite Hu; [apply I|].
    apply Forall_app. split; [apply I|]. constructor; [|constructor]. constructor.
  - destruct (step_save db user_id payload) as (Hp & Hr & [Hu|(oid & Hu)]);
      apply invariant_frame with (db := db); try assumption; rewrite Hu; [apply I|].
    apply update_one_Forall; [|apply I].
    intros d Hd. cbn [fields addToSet_saved_places User.saved_places].
    now apply addToSet_NoDup.
Qed.

(** Every database a run reaches satisfies the invariant. *)
Lemma reachable_invariant db : reachable db -> invariant db.
Proof.
  induction 1 as [|db r _ IH Ha].
  - constructor; constructor.
  - now apply invariant_step.
Qed.

Lemma seed_scores_in_range x :
  In x seed_scores ->
  Float64.leb Float64.f0_0 x = true /\ Float64.leb x Float64.f5_0 = true.
Proof.
  intros [<-|[<-|[<-|[]]]]; split; reflexivity.
Qed.

(** C6 (amended). In every database reached from the empty one by seeding,
    reviews, quizzes, signups and saves, where [add_review] is called with
    identifiers spelled as the service prints them, every place's
    [safety_score] lies in [0.0, 5.0]; it is the rounded mean of the ratings
    of its reviews once it has one; and a place without reviews keeps the
    score it was seeded with, 4.7, 4.9 or 4.4. *)
Theorem place_score_invariant db p :
  reachable db -> In p (place db) ->
  Float64.leb Float64.f0_0 (Place.safety_score (fields p)) = true
  /\ Float64.leb (Place.safety_score (fields p)) Float64.f5_0 = true
  /\ (ratings_of db (Bson.str (_id p)) <> [] ->
      Place.safety_score (fields p) = rounded_mean (ratings_of db (Bson.str (_id p))))
  /\ (ratings_of db (Bson.str (_id p)) = [] ->
      In (Place.safety_score (fields p)) [Float64.f4_7; Float64.f4_9; Float64.f4_4]).
Proof.
  intros Hr Hp. apply reachable_invariant in Hr.
  pose proof (ratings_in_range (Bson.str (_id p)) Hr) as Hrange.
  pose proof (inv_scores Hr) as Hs. rewrite Forall_forall in Hs. specialize (Hs p Hp).
  unfold score_agrees in Hs.
  destruct (ratings_of db (Bson.str (_id p))) as [|r rs] eqn:E.
  - destruct (seed_scores_in_range Hs) as [H0 H5].
    split; [exact H0|]. split; [exact H5|]. split; [congruence|]. intros _. exact Hs.
  - rewrite Hs.
    destruct (between_in_range (rounded_mean_between (rs := r :: rs) ltac:(discriminate) Hrange))
      as [H0 H5].
    split; [exact H0|]. split; [exact H5|]. split; [reflexivity|discriminate].
Qed.

(** In a reachable database no user has saved a place twice. *)
Lemma reachable_saved_places_nodup db u :
  reachable db -> In u (user db) -> NoDup (User.saved_places (fields u)).
Proof.
  intros Hr Hu. apply reachable_invariant in Hr.
  pose proof (inv_saved Hr) as H. rewrite Forall_forall in H. now apply H.
Qed.

Lemma distinct_sample_ids : NoDup [oid1; oid2; oid3].
Proof.
  repeat constructor; simpl; intros H; repeat destruct H as [H|H]; discriminate H || exact H.
Qed.

Lemma seeded_db_reachable : reachable seeded_db.
Proof.
  apply reachable_step; [apply reachable_empty|]. exact distinct_sample_ids.
Qed.

Lemma reviewed_db_reachable : reachable reviewed_db.
Proof.
  repeat (apply reachable_step; [|reflexivity]). exact seeded_db_reachable.
Qed.

Lemma place_score_invariant_witness :
  let p := mkDoc oid1 100 (Place.set_safety_score (Float64.of_ratio 45 10) aurora) in
  Float64.leb Float64.f0_0 (Place.safety_score (fields p)) = true
  /\ Float64.leb (Place.safety_score (fields p)) Float64.f5_0 = true
  /\ (ratings_of reviewed_db (Bson.str (_id p)) <> [] ->
      Place.safety_score (fields p) = rounded_mean (ratings_of reviewed_db (Bson.str (_id p))))
  /\ (ratings_of reviewed_db (Bson.str (_id p)) = [] ->
      In (Place.safety_score (fields p)) [Float64.f4_7; Float64.f4_9; Float64.f4_4]).
Proof.
  exact (@place_score_invariant reviewed_db
           (mkDoc oid1 100 (Place.set_safety_score (Float64.of_ratio 45 10) aurora))
           reviewed_db_reachable (or_introl eq_refl)).
Defined.

(** C6 as stated fails: the first seeded place has no review, and its score
    is the 4.7 it was seeded with, not the default 3.5. *)
Lemma seeded_place_keeps_seed_score :
  reachable seeded_db
  /\ In (mkDoc oid1 100 aurora) (place seeded_db)
  /\ ratings_of seeded_db (Bson.str oid1) = []
  /\ Place.safety_score aurora = Float64.f4_7
  /\ Place.safety_score aurora <> Place.default_safety_score.
Proof.
  split; [exact seeded_db_reachable|]. split; [now left|].
  split; [reflexivity|]. split; [reflexivity|].
  intros H. vm_compute in H. discriminate H.
Qed.

(* ================================================================== *)
(** * Further properties of the handlers *)

(** ** [objid] *)

Lemma lower_char_facts c :
  Bson.is_space (Text.lower_char c) = Bson.is_space c
  /\ Bson.is_hex (Text.lower_char c) = Bson.is_hex c
  /\ Text.lower_char (Text.lower_char c) = Text.lower_char c.
Proof.
  destruct c as [[] [] [] [] [] [] [] []]; repeat split; reflexivity.
Qed.

Lemma hex_lower_char c :
  Bson.is_hex c = true -> Bson.is_lower_hex (Text.lower_char c) = true.
Proof.
  destruct c as [[] [] [] [] [] [] [] []]; intros H; try discriminate H; reflexivity.
Qed.

Lemma lower_length s : String.length (Text.lower s) = String.length s.
Proof. induction s as [|c s IH]; simpl; [reflexivity|now rewrite IH]. Qed.

(** [bytes.fromhex] reads two characters at a time: the induction is on a
    bound of the length. *)
Lemma fromhex_lower n : forall s,
  (String.length s <= n)%nat -> Bson.fromhex (Text.lower s) = Bson.fromhex s.
Proof.
  induction n as [|n IH]; intros s Hl.
  - destruct s; [reflexivity|simpl in Hl; lia].
  - destruct s as [|c s]; [reflexivity|].
    destruct (lower_char_facts c) as (Hs & Hh & Hi).
    cbn [Text.lower Bson.fromhex]. rewrite Hs.
    destruct (Bson.is_space c).
    + apply IH. simpl in Hl. lia.
    + destruct s as [|d s]; [reflexivity|].
      destruct (lower_char_facts d) as (_ & Hh' & Hi').
      cbn [Text.lower]. rewrite Hh, Hh', Hi, Hi'.
      rewrite (@IH s) by (simpl in Hl; lia). reflexivity.
Qed.

Lemma parse_lower s : Bson.parse (Text.lower s) = Bson.parse s.
Proof.
  unfold Bson.parse. rewrite lower_length.
  destruct (Nat.eqb (String.length s) 24); [|reflexivity].
  eapply fromhex_lower. apply le_n.
Qed.

(** X1. [objid] does not see letter case: two strings equal up to letter
    case are both refused, or read as the same identifier. *)
Theorem objid_letter_case s t :
  Text.ci_eqb s t = true -> objid s = objid t.
Proof.
  unfold Text.ci_eqb, objid. intros H. apply String.eqb_eq in H.
  now rewrite <- (parse_lower s), <- (parse_lower t), H.
Qed.

Lemma objid_letter_case_witness :
  objid oid1_upper = objid oid1.
Proof. exact (@objid_letter_case oid1_upper oid1 eq_refl). Defined.

Lemma fromhex_printed n : forall s o,
  (String.length s <= n)%nat -> Bson.fromhex s = Some o ->
  Bson.all_lower_hex o = true /\ (blank_free s = true -> o = Text.lower s).
Proof.
  induction n as [|n IH]; intros s o Hl H.
  - destruct s; [|simpl in Hl; lia]. injection H as <-. now split.
  - destruct s as [|c s]; [injection H as <-; now split|].
    cbn [Bson.fromhex] in H. cbn [blank_free].
    destruct (Bson.is_space c) eqn:Hc.
    + destruct (@IH s o) as [H1 _]; [simpl in Hl; lia|exact H|].
      split; [exact H1|discriminate].
    + destruct s as [|d s]; [discriminate|].
      destruct (Bson.is_hex c) eqn:Hhc; [|discriminate].
      destruct (Bson.is_hex d) eqn:Hhd; [|discriminate]. cbn [andb] in H.
      destruct (Bson.fromhex s) as [r|] eqn:Hr; [|discriminate].
      injection H as <-.
      destruct (@IH s r) as [H1 H2]; [simpl in Hl; lia|exact Hr|].
      split.
      * cbn [Bson.all_lower_hex]. now rewrite !hex_lower_char, H1.
      * cbn [blank_free negb andb Text.lower]. intros Hb.
        apply andb_prop in Hb. destruct Hb as [_ Hb]. now rewrite <- H2.
Qed.

(** X2. What [objid] accepts, it returns in the printed form: lower-case
    hexadecimal digits only; for a string without blanks the identifier is
    the string in lower case, has 24 digits, and reads back as itself. *)
Theorem objid_printed s o :
  Bson.parse s = Some o ->
  Bson.all_lower_hex o = true
  /\ (blank_free s = true ->
      o = Text.lower s /\ Bson.wellformed o = true /\ Bson.parse (Bson.str o) = Some o).
Proof.
  unfold Bson.parse. destruct (Nat.eqb (String.length s) 24) eqn:Hl; [|discriminate].
  intros H. apply Nat.eqb_eq in Hl.
  destruct (@fromhex_printed (String.length s) s o (le_n _) H) as [H1 H2].
  split; [exact H1|]. intros Hb. specialize (H2 Hb).
  assert (Hw : Bson.wellformed o = true).
  { unfold Bson.wellformed. rewrite H1, H2, lower_length, Hl. reflexivity. }
  split; [exact H2|]. split; [exact Hw|]. now apply parse_str.
Qed.

Lemma objid_printed_witness :
  Bson.all_lower_hex oid1 = true
  /\ (blank_free oid1_upper = true ->
      oid1 = Text.lower oid1_upper /\ Bson.wellformed oid1 = true
      /\ Bson.parse (Bson.str oid1) = Some oid1).
Proof. exact (@objid_printed oid1_upper oid1 eq_refl). Defined.

(** ** [profile] *)

(** X3. [profile] never writes.  It answers 400 when [user_id] is no
    identifier, 404 when it is one that no stored user has, and otherwise the
    first stored user with that identifier, whose [id] is the printed form of
    [user_id]. *)
Theorem profile_outcomes db user_id :
  db_after (profile (Some db) user_id) = Some db
  /\ match Bson.parse user_id with
     | None => fst (profile (Some db) user_id) = Raise (HTTPException 400 "Invalid ID format")
     | Some oid =>
         match Collection.find_one (user db) (Collection.by_id oid) with
         | None => fst (profile (Some db) user_id) = Raise (HTTPException 404 "User not found")
         | Some d => fst (profile (Some db) user_id) = Ok (Some (serialize_doc d))
                     /\ In d (user db) /\ doc_id (serialize_doc d) = oid
         end
     end.
Proof.
  unfold profile, db_after. run_handler.
  destruct (Bson.parse user_id) as [oid|]; [|now split].
  destruct (Collection.find_one (user db) (Collection.by_id oid)) as [d|] eqn:E;
    [|now split].
  apply find_one_some in E. destruct E as [Hin Hid]. apply by_id_eq in Hid.
  repeat split; assumption.
Qed.

(** ** [seed_sample] *)

Lemma seed_sample_result db e1 e2 e3 :
  seed_sample (Some db) e1 e2 e3
  = (Ok [Bson.str (fst e1); Bson.str (fst e2); Bson.str (fst e3)],
     Some (set_place db (place db ++ seeded_places e1 e2 e3))).
Proof.
  destruct e1 as [o1 t1], e2 as [o2 t2], e3 as [o3 t3].
  unfold seed_sample, with_db.
  replace (forallb Place.valid samples) with true by (now vm_compute).
  unfold samples, seed_loop. run_handler.
  unfold Collection.insert_one, set_place. cbn [user place review quizresult fst snd].
  now rewrite <- !app_assoc.
Qed.

(** X4. [seed_sample] is not idempotent: every call appends the three
    sample places again, under the three new identifiers it answers with, and
    touches no other collection; after two calls the directory holds each
    sample twice. *)
Theorem seed_sample_appends db e1 e2 e3 f1 f2 f3 :
  exists db1 db2,
    seed_sample (Some db) e1 e2 e3
    = (Ok [Bson.str (fst e1); Bson.str (fst e2); Bson.str (fst e3)], Some db1)
    /\ seed_sample (Some db1) f1 f2 f3
       = (Ok [Bson.str (fst f1); Bson.str (fst f2); Bson.str (fst f3)], Some db2)
    /\ map (@fields _) (place db1) = (map (@fields _) (place db) ++ samples)%list
    /\ map (@fields _) (place db2) = (map (@fields _) (place db) ++ samples ++ samples)%list
    /\ map (@_id _) (place db2)
       = (map (@_id _) (place db) ++ [fst e1; fst e2; fst e3; fst f1; fst f2; fst f3])%list
    /\ (user db2, review db2, quizresult db2) = (user db, review db, quizresult db).
Proof.
  exists (set_place db (place db ++ seeded_places e1 e2 e3)).
  exists (set_place db ((place db ++ seeded_places e1 e2 e3) ++ seeded_places f1 f2 f3)).
  split; [apply seed_sample_result|]. split; [apply seed_sample_result|].
  cbn [place user review quizresult set_place].
  rewrite !map_app, <- !app_assoc. repeat split; reflexivity.
Qed.

(** ** [add_review]: what a call writes *)

Lemma references_place_parse db place_id :
  references_place db place_id
  = match Bson.parse place_id with
    | Some oid => match Collection.find_one (place db) (Collection.by_id oid) with
                  | Some _ => true
                  | None => false
                  end
    | None => false
    end.
Proof.
  unfold references_place, score_of.
  destruct (Bson.parse place_id) as [oid|]; [|reflexivity].
  now destruct (Collection.find_one (place db) (Collection.by_id oid)).
Qed.

(** What an accepted review went through. *)
Lemma route_add_review_ok_inv db place_id body e rid db' :
  route_add_review (Some db) place_id body e = (Ok rid, Some db') ->
  exists oid p,
    Bson.parse place_id = Some oid
    /\ Collection.find_one (place db) (Collection.by_id oid) = Some p
    /\ NewReview.valid body = true
    /\ rid = Bson.str (fst e)
    /\ db' = reviewed db oid place_id body e.
Proof.
  unfold route_add_review.
  destruct (NewReview.valid body) eqn:Hv; [|discriminate].
  destruct (Bson.parse place_id) as [oid|] eqn:Hp.
  - destruct (Collection.find_one (place db) (Collection.by_id oid)) as [p|] eqn:Hf.
    + rewrite (add_review_ok db place_id body e Hp Hf Hv). intros H.
      injection H as <- <-. now exists oid, p.
    + unfold add_review. run_handler. rewrite Hp, Hf. discriminate.
  - unfold add_review. run_handler. rewrite Hp. discriminate.
Qed.

(** X5. A review is accepted exactly when its rating is from 1 to 5 and
    [place_id] designates a stored place; the reviewer's [user_id] is not
    looked at.  A refused review leaves the database as it was: no error
    path writes. *)
Theorem add_review_accepts db place_id body e :
  is_ok (fst (route_add_review (Some db) place_id body e))
  = NewReview.valid body && references_place db place_id
  /\ (is_ok (fst (route_add_review (Some db) place_id body e)) = false ->
      db_after (route_add_review (Some db) place_id body e) = Some db).
Proof.
  rewrite references_place_parse. unfold route_add_review, db_after.
  destruct (NewReview.valid body) eqn:Hv; [|now split].
  destruct (Bson.parse place_id) as [oid|] eqn:Hp.
  - destruct (Collection.find_one (place db) (Collection.by_id oid)) as [p|] eqn:Hf.
    + rewrite (add_review_ok db place_id body e Hp Hf Hv). split; [reflexivity|discriminate].
    + unfold add_review. run_handler. rewrite Hp, Hf. now split.
  - unfold add_review. run_handler. rewrite Hp. now split.
Qed.




(** X7. The first review filed under a place's identifier replaces the score
    the place had by the rating itself: the seeded score does not enter the
    mean. *)
Theorem first_review_sets_score db place_id body e db' rid :
  ratings_of db place_id = [] ->
  route_add_review (Some db) place_id body e = (Ok rid, Some db') ->
  score_of db' place_id = Some (Float64.of_ratio (NewReview.rating body) 1).
Proof.
  intros Hr H. destruct (route_add_review_ok_inv _ _ _ _ H) as (oid & p & Hp & Hf & Hv & _ & ->).
  rewrite (reviewed_score db place_id body e Hp Hf), reviewed_ratings, Hr.
  unfold NewReview.valid in Hv. apply andb_prop in Hv. destruct Hv as [H1 H5].
  apply Z.leb_le in H1, H5.
  assert (Hc : NewReview.rating body = 1 \/ NewReview.rating body = 2
               \/ NewReview.rating body = 3 \/ NewReview.rating body = 4
               \/ NewReview.rating body = 5) by lia.
  cbn [app]. destruct Hc as [Hc|[Hc|[Hc|[Hc|Hc]]]]; rewrite Hc; reflexivity.
Qed.

Lemma first_review_sets_score_witness :
  score_of respelled_db1 oid1 = Some (Float64.of_ratio (NewReview.rating (review_body 5)) 1).
Proof.
  exact (@first_review_sets_score seeded_db oid1 (review_body 5) (oid5, 200)
           respelled_db1 oid5 eq_refl eq_refl).
Defined.

(** ** [add_review], then [list_reviews] *)

Lemma reviews_listed_eq db place_id :
  reviews_listed db place_id
  = map serialize_doc
      (Collection.sort_desc (@created_at _)
         (Collection.find (review db) (by_place_id place_id))).
Proof. reflexivity. Qed.

(** X8. An accepted review shows in the listing of the [place_id] it was
    posted under, under the identifier the call answered with: the listing
    is the one before with the new review added.  The listing of any other
    [place_id] string is unchanged. *)
Theorem add_review_then_list db place_id body e db' rid :
  route_add_review (Some db) place_id body e = (Ok rid, Some db') ->
  Permutation (reviews_listed db' place_id)
    (mkSerialized rid (snd e) (fields (stored_review place_id body e))
       :: reviews_listed db place_id)
  /\ (forall other, other <> place_id -> reviews_listed db' other = reviews_listed db other).
Proof.
  intros H. destruct (route_add_review_ok_inv _ _ _ _ H) as (oid & p & _ & _ & _ & -> & ->).
  assert (Hr : review (reviewed db oid place_id body e)
               = (review db ++ [stored_review place_id body e])%list) by reflexivity.
  rewrite !reviews_listed_eq. split.
  - rewrite Hr. fold (Collection.insert_one (review db) (stored_review place_id body e)).
    rewrite find_app. unfold by_place_id at 2. cbn [stored_review fields Review.place_id].
    rewrite String.eqb_refl.
    assert (Hperm : Permutation
              (Collection.sort_desc (@created_at _)
                 (Collection.find (review db) (by_place_id place_id)
                  ++ [stored_review place_id body e]))
              (stored_review place_id body e
                 :: Collection.sort_desc (@created_at _)
                      (Collection.find (review db) (by_place_id place_id)))).
    { eapply perm_trans; [apply Permutation_sym, sort_desc_perm|].
      eapply perm_trans; [apply Permutation_sym, Permutation_cons_append|].
      apply perm_skip, sort_desc_perm. }
    exact (Permutation_map serialize_doc Hperm).
  - intros other Ho. intros. rewrite !reviews_listed_eq, Hr.
    fold (Collection.insert_one (review db) (stored_review place_id body e)).
    rewrite find_app. unfold by_place_id at 2. cbn [stored_review fields Review.place_id].
    replace (String.eqb place_id other) with false
      by (symmetry; apply String.eqb_neq; congruence).
    now rewrite app_nil_r.
Qed.

Lemma add_review_then_list_witness :
  Permutation (reviews_listed respelled_db1 oid1)
    (mkSerialized oid5 (snd (oid5, 200)) (fields (stored_review oid1 (review_body 5) (oid5, 200)))
       :: reviews_listed seeded_db oid1)
  /\ (forall other, other <> oid1 ->
        reviews_listed respelled_db1 other = reviews_listed seeded_db other).
Proof.
  exact (@add_review_then_list seeded_db oid1 (review_body 5) (oid5, 200) respelled_db1 oid5
           eq_refl).
Defined.

(** ** The accuracy of the score *)

Lemma rne_error n d : 0 < d -> 2 * Z.abs (Float64.rne n d * d - n) <= d.
Proof.
  intros Hd. unfold Float64.rne.
  pose proof (Z.div_mod n d ltac:(lia)) as E.
  pose proof (Z.mod_pos_bound n d Hd) as B.
  set (q := n / d) in *. set (r := n mod d) in *. clearbody q r.
  assert (H0 : q * d - n = - r) by (rewrite E; ring).
  assert (H1 : (q + 1) * d - n = d - r) by (rewrite E; ring).
  destruct (2 * r ?= d) eqn:C.
  - apply Z.compare_eq_iff in C. destruct (Z.even q); rewrite ?H0, ?H1; lia.
  - change (2 * r < d) in C. rewrite H0. lia.
  - change (2 * r > d) in C. rewrite H1. lia.
Qed.

(** The quotient of [of_ratio] for a ratio between 1 and 5: its shape, and
    its distance to [n / d], at most half a unit in the last place. *)
Lemma of_ratio_error n d :
  0 < d -> d <= n <= 5 * d ->
  exists s, 49 <= s <= 52
            /\ Float64.expo (Float64.of_ratio n d) = - s
            /\ 2 ^ s <= Float64.mant (Float64.of_ratio n d) <= 5 * 2 ^ s
            /\ 2 * Z.abs (Float64.mant (Float64.of_ratio n d) * d - n * 2 ^ s) <= d.
Proof.
  intros Hd Hn. unfold Float64.of_ratio.
  replace (n ?= 0) with Gt by (symmetry; apply Z.compare_gt_iff; lia).
  unfold Float64.of_ratio_pos.
  set (e0 := Z.log2 n - Z.log2 d).
  assert (He0 : 0 <= e0 <= 3).
  { unfold e0. split.
    - pose proof (Z.log2_le_mono d n ltac:(lia)). lia.
    - pose proof (Z.log2_le_mono n (d * 2 ^ 3) ltac:(lia)) as H.
      rewrite Z.log2_mul_pow2 in H by lia. lia. }
  replace (0 <=? e0) with true by (symmetry; apply Z.leb_le; lia).
  set (e := if d * 2 ^ e0 <=? n then e0 else e0 - 1).
  assert (He : 0 <= e <= 3).
  { unfold e. destruct (d * 2 ^ e0 <=? n) eqn:F; [lia|].
    apply Z.leb_gt in F. destruct (Z.eq_dec e0 0) as [->|]; [|lia].
    change (2 ^ 0) with 1 in F. lia. }
  set (s := 52 - e).
  assert (Hs : 49 <= s <= 52) by (unfold s; lia).
  replace (0 <=? s) with true by (symmetry; apply Z.leb_le; lia).
  assert (Hp : 0 < 2 ^ s) by (apply Z.pow_pos_nonneg; lia).
  pose proof (@rne_ge (n * 2 ^ s) d (2 ^ s) Hd ltac:(nia)) as Hlo.
  pose proof (@rne_le (n * 2 ^ s) d (5 * 2 ^ s) Hd ltac:(nia)) as Hhi.
  pose proof (@rne_error (n * 2 ^ s) d Hd) as Herr.
  set (m := Float64.rne (n * 2 ^ s) d) in *.
  clearbody m. clearbody s. clear e He.
  destruct (m =? 2 ^ 53) eqn:Hm.
  - apply Z.eqb_eq in Hm. exists (s - 1). cbn [Float64.expo Float64.mant].
    assert (Hs' : s = 51 \/ s = 52).
    { assert (Hc : s = 49 \/ s = 50 \/ s = 51 \/ s = 52) by lia.
      destruct Hc as [Hc|[Hc|[Hc|Hc]]]; [exfalso|exfalso|now left|now right];
        rewrite Hm, Hc in Hhi; vm_compute in Hhi; now apply Hhi. }
    assert (H2 : 2 ^ s = 2 * 2 ^ (s - 1)).
    { replace s with (1 + (s - 1)) at 1 by lia. rewrite Z.pow_add_r by lia. reflexivity. }
    assert (H53 : 2 ^ 53 = 2 * 2 ^ 52) by reflexivity.
    rewrite Hm, H53 in Herr, Hlo, Hhi. rewrite H2 in Herr, Hlo, Hhi.
    split; [lia|]. split; [lia|]. split; [lia|]. lia.
  - exists s. cbn [Float64.expo Float64.mant].
    split; [lia|]. split; [lia|]. split; [lia|]. exact Herr.
Qed.

Lemma leb_f1_0 f : between_1_5 f -> Float64.leb f1_0 f = true.
Proof.
  intros (s & Hs & He & Hm). unfold Float64.leb.
  change f1_0 with (Float64.mk (2 ^ 52) (- 52)).
  cbn [Float64.mant Float64.expo]. rewrite He. apply Z.leb_le.
  rewrite Z.min_l by lia.
  replace (- 52 - - 52) with 0 by lia. replace (- s - - 52) with (52 - s) by lia.
  rewrite Z.pow_0_r, Z.mul_1_r.
  replace (2 ^ 52) with (2 ^ s * 2 ^ (52 - s))
    by (rewrite <- Z.pow_add_r by lia; f_equal; lia).
  assert (0 < 2 ^ (52 - s)) by (apply Z.pow_pos_nonneg; lia). nia.
Qed.

(** X9. For ratings from 1 to 5 the score [add_review] stores is the float
    nearest to a two-decimal number [h/100] between 1.00 and 5.00 that lies
    within 0.005 of the exact mean, up to the rounding of the float division
    (a factor [1 + 100/2^49]); as a float the score is at least 1.0 and at
    most 5.0. *)
Theorem rounded_mean_accuracy rs :
  rs <> [] -> Forall (fun r => 1 <= r <= 5) rs ->
  exists h,
    rounded_mean rs = Float64.of_ratio h 100
    /\ 100 <= h <= 500
    /\ 2 ^ 49 * (2 * Z.abs (h * len rs - 100 * sum rs)) <= (2 ^ 49 + 100) * len rs
    /\ Float64.leb f1_0 (rounded_mean rs) = true
    /\ Float64.leb (rounded_mean rs) Float64.f5_0 = true.
Proof.
  intros Hne Hrs.
  assert (Hn : 0 < len rs).
  { unfold len. destruct rs; [congruence|]. simpl List.length. lia. }
  pose proof (sum_bounds Hrs) as HS.
  destruct (of_ratio_error Hn HS) as (s & Hs & He & Hm & Herr).
  assert (Hp : 0 < 2 ^ s) by (apply Z.pow_pos_nonneg; lia).
  assert (H49 : 2 ^ 49 <= 2 ^ s) by (apply Z.pow_le_mono_r; lia).
  set (m := Float64.mant (Float64.of_ratio (sum rs) (len rs))) in *.
  exists (Float64.rne (100 * m) (2 ^ s)).
  assert (Hsh : Float64.round2 (Float64.of_ratio (sum rs) (len rs))
                = Float64.of_ratio (Float64.rne (100 * m) (2 ^ s)) 100).
  { unfold Float64.round2. rewrite He.
    replace (0 <=? - s) with false by (symmetry; apply Z.leb_gt; lia).
    replace (- - s) with s by lia. reflexivity. }
  pose proof (@rne_ge (100 * m) (2 ^ s) 100 Hp ltac:(lia)) as Hlo.
  pose proof (@rne_le (100 * m) (2 ^ s) 500 Hp ltac:(lia)) as Hhi.
  pose proof (@rne_error (100 * m) (2 ^ s) Hp) as Hh.
  set (h := Float64.rne (100 * m) (2 ^ s)) in *.
  destruct (between_in_range (rounded_mean_between Hne Hrs)) as [_ H5].
  split; [exact Hsh|]. split; [lia|]. split; [|split; [|exact H5]].
  - clearbody h m. clear Hsh H5 He Hlo Hhi Hm.
    set (n := len rs) in *. set (S := sum rs) in *. clearbody n S.
    set (p := 2 ^ s) in *. clearbody p.
    assert (Hk : 2 * p * Z.abs (h * n - 100 * S) <= n * p + 100 * n).
    { assert (Hid : (h * n - 100 * S) * p = n * (h * p - 100 * m) + 100 * (m * n - S * p))
        by ring.
      destruct (Z.abs_spec (h * n - 100 * S)) as [[_ ->]|[_ ->]];
        destruct (Z.abs_spec (h * p - 100 * m)) as [[_ Ea]|[_ Ea]];
        destruct (Z.abs_spec (m * n - S * p)) as [[_ Eb]|[_ Eb]];
        rewrite Ea in Hh; rewrite Eb in Herr; nia. }
    destruct (Z.le_gt_cases (2 * Z.abs (h * n - 100 * S)) n) as [Hle|Hgt]; [nia|].
    nia.
  - apply leb_f1_0. now apply rounded_mean_between.
Qed.

Lemma rounded_mean_accuracy_witness :
  exists h,
    rounded_mean [5; 4; 4] = Float64.of_ratio h 100
    /\ 100 <= h <= 500
    /\ 2 ^ 49 * (2 * Z.abs (h * len [5; 4; 4] - 100 * sum [5; 4; 4]))
       <= (2 ^ 49 + 100) * len [5; 4; 4]
    /\ Float64.leb f1_0 (rounded_mean [5; 4; 4]) = true
    /\ Float64.leb (rounded_mean [5; 4; 4]) Float64.f5_0 = true.
Proof.
  refine (@rounded_mean_accuracy [5; 4; 4] _ _); [discriminate|].
  repeat constructor; lia.
Defined.

(** ** [signup] *)

(** X10. The email is compared as it is written: when no stored user has
    exactly the email of the payload (one that differs in letter case only
    does not count), [signup] appends one user with that name, email and
    photo and with empty [saved_places] and [saved_cities], and answers with
    it under the identifier the store assigned. *)
Theorem signup_new_user db payload e :
  (forall u, In u (user db) -> User.email (fields u) <> Signup.email payload) ->
  Bson.wellformed (fst e) = true ->
  ~ In (fst e) (map (@_id _) (user db)) ->
  signup (Some db) payload e
  = (Ok (Some (mkSerialized (fst e) (snd e)
                 (User.mk (Signup.name payload) (Signup.email payload)
                          (Signup.photo payload) [] []))),
     Some (set_user db (user db ++ [new_user payload e]))).
Proof.
  intros Hemail Hw Hfresh. unfold signup. run_handler.
  rewrite find_one_none.
  2:{ intros d Hd. unfold by_email. apply String.eqb_neq. now apply Hemail. }
  rewrite (parse_str _ Hw). cbn [user set_user].
  rewrite find_one_insert_one, (find_one_by_id_fresh _ _ Hfresh).
  unfold Collection.by_id. cbn [_id]. rewrite String.eqb_refl. reflexivity.
Qed.

Lemma signup_new_user_witness :
  signup (Some signed_up_db) (Signup.mk "Ana" "Ana@example.org" None) (oid5, 301)
  = (Ok (Some (mkSerialized oid5 301 (User.mk "Ana" "Ana@example.org" None [] []))),
     Some (set_user signed_up_db
             (user signed_up_db
              ++ [new_user (Signup.mk "Ana" "Ana@example.org" None) (oid5, 301)]))).
Proof.
  refine (@signup_new_user signed_up_db (Signup.mk "Ana" "Ana@example.org" None) (oid5, 301)
            _ eq_refl _).
  - intros u [<-|[]]. discriminate.
  - intros [H|[]]. discriminate H.
Defined.

Lemma find_one_by_id_unique {A} (c : list (Doc A)) x :
  NoDup (map (@_id _) c) -> In x c -> Collection.find_one c (Collection.by_id (_id x)) = Some x.
Proof.
  induction c as [|y c IH]; simpl; intros Hn Hin; [destruct Hin|].
  inversion Hn as [|? ? Hy Hn']; subst.
  destruct (Collection.by_id (_id x) y) eqn:E.
  - apply by_id_eq in E. destruct Hin as [->|Hin]; [reflexivity|].
    exfalso. apply Hy. rewrite E. now apply in_map.
  - destruct Hin as [->|Hin]; [|now apply IH].
    unfold Collection.by_id in E. now rewrite String.eqb_refl in E.
Qed.

(** X11. A user that [signup] answers with can be fetched back: [profile]
    under the returned [id] answers with the same document and writes
    nothing, provided the stored user identifiers are well formed and
    distinct, as is the one the store assigns. *)
Theorem signup_then_profile db payload e u db1 :
  user_ids_ok db ->
  Bson.wellformed (fst e) = true ->
  signup (Some db) payload e = (Ok (Some u), Some db1) ->
  profile (Some db1) (doc_id u) = (Ok (Some u), Some db1).
Proof.
  intros [Hwf Hnd] Hw. unfold signup. run_handler.
  destruct (Collection.find_one (user db) (by_email (Signup.email payload))) as [x|] eqn:E.
  - intros H. injection H as <- <-. cbn [serialize_doc doc_id].
    apply find_one_some in E. destruct E as [Hin _].
    rewrite Forall_forall in Hwf.
    unfold profile. run_handler. rewrite (parse_str _ (Hwf x Hin)).
    now rewrite (find_one_by_id_unique _ _ Hnd Hin).
  - rewrite (parse_str _ Hw). cbn [user set_user].
    set (users1 := Collection.insert_one (user db) _).
    destruct (Collection.find_one users1 (Collection.by_id (fst e))) as [d|] eqn:F;
      [|discriminate].
    intros H. injection H as <- <-. cbn [serialize_doc doc_id].
    pose proof (find_one_some _ _ F) as [_ Hid]. apply by_id_eq in Hid.
    unfold profile. run_handler.
    rewrite Hid, (parse_str _ Hw). cbn [user set_user]. fold users1.
    rewrite F. reflexivity.
Qed.

Lemma signup_then_profile_witness :
  profile (Some signed_up_db) (doc_id (serialize_doc ana))
  = (Ok (Some (serialize_doc ana)), Some signed_up_db).
Proof.
  refine (@signup_then_profile seeded_db (Signup.mk "Ana" "ana@example.org" None) (oid4, 300)
            (serialize_doc ana) signed_up_db _ eq_refl eq_refl).
  split; constructor.
Defined.

(** ** Users in the databases a run reaches *)

Lemma update_one_emails (c : list (Doc User.t)) filt x :
  map (fun u => User.email (fields u)) (Collection.update_one c filt (addToSet_saved_places x))
  = map (fun u => User.email (fields u)) c.
Proof.
  induction c as [|d c IH]; simpl; [reflexivity|].
  destruct (filt d); simpl; [reflexivity|now rewrite IH].
Qed.

Lemma find_one_by_email_none (c : list (Doc User.t)) email :
  Collection.find_one c (by_email email) = None ->
  ~ In email (map (fun u => User.email (fields u)) c).
Proof.
  intros H Hin. apply in_map_iff in Hin. destruct Hin as (u & He & Hu).
  pose proof (find_none _ _ H u Hu) as Hn. unfold by_email in Hn.
  rewrite He, String.eqb_refl in Hn. discriminate Hn.
Qed.

Lemma step_signup_users db payload e :
  user (step db (PostSignup payload e)) = user db
  \/ (Collection.find_one (user db) (by_email (Signup.email payload)) = None
      /\ user (step db (PostSignup payload e)) = (user db ++ [new_user payload e])%list).
Proof.
  unfold step, signup, db_after. run_handler.
  destruct (Collection.find_one (user db) (by_email (Signup.email payload))) eqn:E;
    [now left|].
  right. split; [reflexivity|].
  destruct (Bson.parse (Bson.str (fst e))); reflexivity.
Qed.

Lemma step_users_elsewhere db r :
  match r with PostSignup _ _ | PostSave _ _ => True | _ => user (step db r) = user db end.
Proof.
  destruct r as [e1 e2 e3|place_id body e|ans user_id e|payload e|user_id payload];
    try exact I.
  - now rewrite step_seed.
  - destruct (step_review db place_id body e) as [->|(oid & p & _ & _ & _ & ->)];
      reflexivity.
  - apply step_quiz.
Qed.

Lemma reachable_emails_distinct db :
  reachable db -> NoDup (map (fun u => User.email (fields u)) (user db)).
Proof.
  induction 1 as [|db r _ IH _]; [constructor|].
  pose proof (step_users_elsewhere db r) as Hu.
  destruct r as [e1 e2 e3|place_id body e|ans user_id e|payload e|user_id payload];
    try (rewrite Hu; exact IH).
  - destruct (step_signup_users db payload e) as [->|[Hn ->]]; [exact IH|].
    rewrite map_app. cbn [map new_user fields User.email].
    apply (Permutation_NoDup (Permutation_cons_append _ _)).
    constructor; [now apply find_one_by_email_none|exact IH].
  - destruct (step_save db user_id payload) as (_ & _ & [->|(oid & ->)]); [exact IH|].
    now rewrite update_one_emails.
Qed.

(** X12. Served one request after the other, the service never stores two
    users with the same email, and never stores a place twice in a user's
    [saved_places]. *)
Theorem reachable_users_distinct db :
  reachable db ->
  NoDup (map (fun u => User.email (fields u)) (user db))
  /\ Forall (fun u => NoDup (User.saved_places (fields u))) (user db).
Proof.
  intros H. split; [now apply reachable_emails_distinct|].
  apply Forall_forall. intros u Hu. eapply reachable_saved_places_nodup; eassumption.
Qed.

Lemma saved_db_reachable : reachable saved_db.
Proof.
  repeat (apply reachable_step; [|exact I]). exact seeded_db_reachable.
Qed.

Lemma reachable_users_distinct_witness :
  NoDup (map (fun u => User.email (fields u)) (user saved_db))
  /\ Forall (fun u => NoDup (User.saved_places (fields u))) (user saved_db).
Proof. exact (@reachable_users_distinct saved_db saved_db_reachable). Defined.

(** X13. In a database a run reaches, every stored review has a rating from
    1 to 5 and is filed under the identifier of a stored place: nothing
    removes a place, and a review is only stored once its place was found. *)
Theorem reachable_reviews_reference db r :
  reachable db -> In r (review db) ->
  1 <= Review.rating (fields r) <= 5
  /\ exists p, In p (place db) /\ Bson.str (_id p) = Review.place_id (fields r).
Proof.
  intros H Hr. apply reachable_invariant in H.
  pose proof (inv_reviews H) as Hi. rewrite Forall_forall in Hi.
  destruct (Hi r Hr) as [Hv Hin]. split; [now apply valid_rating|].
  apply in_map_iff in Hin. destruct Hin as (p & Hp & Hin). now exists p.
Qed.

Lemma reachable_reviews_reference_witness :
  1 <= Review.rating (fields (stored_review oid1 (review_body 5) (oid5, 200))) <= 5
  /\ exists p, In p (place reviewed_db)
               /\ Bson.str (_id p)
                  = Review.place_id (fields (stored_review oid1 (review_body 5) (oid5, 200))).
Proof.
  exact (@reachable_reviews_reference reviewed_db
           (stored_review oid1 (review_body 5) (oid5, 200))
           reviewed_db_reachable (or_introl eq_refl)).
Defined.

(** ** [save_place] *)




(** X15. What [save_place] answers is what [profile] answers next: when the
    answer is a user, [profile] under the same [user_id] returns that very
    document and writes nothing. *)
Theorem save_place_then_profile db user_id payload r db1 :
  save_place (Some db) user_id payload = (Ok (Some r), Some db1) ->
  profile (Some db1) user_id = (Ok (Some r), Some db1).
Proof.
  unfold save_place, profile. run_handler.
  destruct (Bson.parse user_id) as [oid|]; [|discriminate].
  cbn [user set_user].
  set (users1 := Collection.update_one (user db) _ _).
  destruct (Collection.find_one users1 (Collection.by_id oid)) as [d|] eqn:F;
    [|discriminate].
  intros H. injection H as <- <-. cbn [user set_user]. fold users1. now rewrite F.
Qed.

Lemma save_place_then_profile_witness :
  profile (Some (step signed_up_db (PostSave oid4 (SavePlace.mk oid1)))) oid4
  = (Ok (Some (mkSerialized oid4 300 (User.mk "Ana" "ana@example.org" None [oid1] []))),
     Some (step signed_up_db (PostSave oid4 (SavePlace.mk oid1)))).
Proof.
  exact (@save_place_then_profile signed_up_db oid4 (SavePlace.mk oid1) _ _ eq_refl).
Defined.

Lemma mem_app x xs ys : Text.mem x (xs ++ ys) = Text.mem x xs || Text.mem x ys.
Proof. unfold Text.mem. apply existsb_app. Qed.

Lemma addToSet_swap a b xs :
  Permutation (addToSet b (addToSet a xs)) (addToSet a (addToSet b xs)).
Proof.
  unfold addToSet.
  destruct (Text.mem a xs) eqn:Ea, (Text.mem b xs) eqn:Eb;
    rewrite ?Ea, ?Eb, ?mem_app, ?Ea, ?Eb; cbn [orb]; try apply Permutation_refl.
  unfold Text.mem. cbn [existsb]. rewrite !orb_false_r, (String.eqb_sym a b).
  destruct (String.eqb b a) eqn:E.
  - apply String.eqb_eq in E. subst. apply Permutation_refl.
  - rewrite <- !app_assoc. apply Permutation_app_head. cbn [app]. apply perm_swap.
Qed.

(** X16. Saving two places for a stored user in either order gives the same
    set: the two answers carry the same user with [saved_places] that are
    permutations of each other. *)
Theorem save_place_commutes db user_id oid u a b :
  Bson.parse user_id = Some oid ->
  Collection.find_one (user db) (Collection.by_id oid) = Some u ->
  exists rab rba dab dba d1 d2,
    db_after (save_place (Some db) user_id a) = Some d1
    /\ save_place (Some d1) user_id b = (Ok (Some rab), Some dab)
    /\ db_after (save_place (Some db) user_id b) = Some d2
    /\ save_place (Some d2) user_id a = (Ok (Some rba), Some dba)
    /\ doc_id rab = doc_id rba
    /\ Permutation (User.saved_places (doc_fields rab)) (User.saved_places (doc_fields rba)).
Proof.
  intros Hp Hf.
  assert (Hnext : forall x,
    Collection.find_one
      (user (set_user db (Collection.update_one (user db) (Collection.by_id oid)
                            (addToSet_saved_places (SavePlace.place_id x)))))
      (Collection.by_id oid)
    = Some (mkDoc (_id u) (created_at u)
              (addToSet_saved_places (SavePlace.place_id x) (fields u)))).
  { intros x. cbn [user set_user]. now rewrite find_one_update_one, Hf. }
  do 6 eexists.
  split; [unfold db_after; rewrite (save_place_existing db user_id a Hp Hf); reflexivity|].
  split; [apply (save_place_existing _ user_id b Hp (Hnext a))|].
  split; [unfold db_after; rewrite (save_place_existing db user_id b Hp Hf); reflexivity|].
  split; [apply (save_place_existing _ user_id a Hp (Hnext b))|].
  split; [reflexivity|].
  cbn [serialize_doc doc_fields fields addToSet_saved_places User.saved_places].
  apply addToSet_swap.
Qed.

Lemma save_place_commutes_witness :
  exists rab rba dab dba d1 d2,
    db_after (save_place (Some signed_up_db) oid4 (SavePlace.mk oid1)) = Some d1
    /\ save_place (Some d1) oid4 (SavePlace.mk oid2) = (Ok (Some rab), Some dab)
    /\ db_after (save_place (Some signed_up_db) oid4 (SavePlace.mk oid2)) = Some d2
    /\ save_place (Some d2) oid4 (SavePlace.mk oid1) = (Ok (Some rba), Some dba)
    /\ doc_id rab = doc_id rba
    /\ Permutation (User.saved_places (doc_fields rab)) (User.saved_places (doc_fields rba)).
Proof.
  exact (@save_place_commutes signed_up_db oid4 oid4 ana (SavePlace.mk oid1) (SavePlace.mk oid2)
           eq_refl eq_refl).
Defined.

(** ** [evaluate_quiz] *)

(** X17. [evaluate_quiz] stores one quiz result per call, under the
    identifier it answers with: the record carries the persona and the
    recommendations of the answer, the answers as they were submitted and the
    [user_id] as it was given, which is not looked up.  The other collections
    are untouched. *)
Theorem evaluate_quiz_persists ans user_id e db :
  exists resp,
    evaluate_quiz ans user_id e db
    = (Ok resp,
       set_quizresult db
         (quizresult db
          ++ [mkDoc (fst e) (snd e)
                (QuizResult.mk user_id (quiz_persona resp) (quiz_recommendations resp) ans)]))
    /\ quiz_id resp = Bson.str (fst e)
    /\ (quiz_persona resp, quiz_recommendations resp) = quiz_verdict (quiz_score ans).
Proof.
  unfold evaluate_quiz. destruct (quiz_verdict (quiz_score ans)) as [persona recs].
  exists (mkQuizResponse (Bson.str (fst e)) persona recs). now repeat split.
Qed.

(** X18. The quiz score lies between 0 and 8.  Answers are compared as
    written: when [comfort_level], [solo_experience] and [night_travel] hold
    none of the values the handler knows, the score is at most 2 and the
    persona is "Cautious Explorer", whatever the other two answers. *)
Theorem quiz_score_bounds ans :
  0 <= quiz_score ans <= 8
  /\ (Text.mem (QuizAnswer.comfort_level ans) ["high"; "medium"] = false ->
      Text.mem (QuizAnswer.solo_experience ans) ["5+"; "2-4"] = false ->
      String.eqb (QuizAnswer.night_travel ans) "comfortable" = false ->
      quiz_score ans <= 2
      /\ fst (quiz_verdict (quiz_score ans)) = "Cautious Explorer").
Proof.
  assert (Hb : 0 <= quiz_score ans <= 8).
  { rewrite quiz_score_claimed. unfold claimed_quiz_score.
    destruct (String.eqb (QuizAnswer.comfort_level ans) "high"),
             (String.eqb (QuizAnswer.comfort_level ans) "medium"),
             (String.eqb (QuizAnswer.solo_experience ans) "5+"),
             (String.eqb (QuizAnswer.solo_experience ans) "2-4"),
             (String.eqb (QuizAnswer.night_travel ans) "comfortable"),
             (Text.mem "crowds" (QuizAnswer.anxiety_triggers ans)),
             (String.eqb (QuizAnswer.transport_confidence ans) "metro"),
             (String.eqb (QuizAnswer.transport_confidence ans) "ride-share"); lia. }
  split; [exact Hb|]. intros Hc Hs Hn.
  assert (H2 : quiz_score ans <= 2).
  { unfold quiz_score. rewrite Hc, Hs, Hn.
    destruct (negb (Text.mem "crowds" (QuizAnswer.anxiety_triggers ans))),
             (Text.mem (QuizAnswer.transport_confidence ans) ["metro"; "ride-share"]); lia. }
  split; [exact H2|]. unfold quiz_verdict.
  replace (6 <=? quiz_score ans) with false by (symmetry; apply Z.leb_gt; lia).
  replace (4 <=? quiz_score ans) with false by (symmetry; apply Z.leb_gt; lia).
  reflexivity.
Qed.

(** ** [test_database] *)

(** X19. The diagnostic report says whether the two environment variables
    are set, whatever the database: the name of the database and the
    "Configured" mark written first are always overwritten.  It lists at most
    ten collections, the first ten the database names, and none without a
    database or when listing failed; the status is "Connected" exactly when
    there is a database, and the initial "Not Available" is never reported. *)
Theorem test_database_report db name listing url dbname :
  let r := Diagnostics.test_database db name listing url dbname in
  Diagnostics.backend r = "✅ Running"
  /\ Diagnostics.database_url r
     = Some (if Diagnostics.is_set url then "✅ Set" else "❌ Not Set")
  /\ Diagnostics.database_name r
     = Some (if Diagnostics.is_set dbname then "✅ Set" else "❌ Not Set")
  /\ Diagnostics.connection_status r
     = (match db with Some _ => "Connected" | None => "Not Connected" end)
  /\ Diagnostics.collections r
     = (match db, listing with
        | Some _, inr names => firstn 10 names
        | _, _ => []
        end)
  /\ (List.length (Diagnostics.collections r) <= 10)%nat
  /\ Diagnostics.database r <> "❌ Not Available".
Proof.
  cbv zeta. unfold Diagnostics.test_database.
  destruct db as [d|]; [destruct listing as [msg|names]|];
    cbn [Diagnostics.backend Diagnostics.database Diagnostics.database_url
         Diagnostics.database_name Diagnostics.connection_status Diagnostics.collections];
    repeat split; try reflexivity; try (simpl; lia); try discriminate.
  apply firstn_le_length.
Qed.

(** ** The order of a listing *)

Lemma sorted_head_is_newest {A} (key : Doc A -> Z) (x : Doc A) l m :
  StronglySorted (fun a b => key b <= key a) l ->
  Permutation l (x :: m) ->
  Forall (fun y => key y < key x) m ->
  exists tail, l = x :: tail /\ Permutation tail m.
Proof.
  intros Hs Hp Hm. destruct l as [|h tail].
  - apply Permutation_nil in Hp. discriminate Hp.
  - inversion Hs as [|? ? _ Hh]; subst. rewrite Forall_forall in Hh, Hm.
    assert (Hin : In h (x :: m)) by (apply (Permutation_in _ Hp); now left).
    destruct Hin as [->|Hin].
    + exists tail. split; [reflexivity|]. now apply Permutation_cons_inv in Hp.
    + exfalso. specialize (Hm h Hin).
      assert (Hx : In x (h :: tail))
        by (apply (Permutation_in _ (Permutation_sym Hp)); now left).
      destruct Hx as [->|Hx]; [lia|]. specialize (Hh x Hx). cbv beta in Hh. lia.
Qed.

(** X20. A review accepted with a creation time later than that of every
    review already filed under the same [place_id] comes first in the
    listing of that [place_id]; the rest of the listing holds the reviews
    listed before. *)
Theorem add_review_listed_first db place_id body e db' rid :
  Forall (fun r => created_at r < snd e) (Collection.find (review db) (by_place_id place_id)) ->
  route_add_review (Some db) place_id body e = (Ok rid, Some db') ->
  exists tail,
    reviews_listed db' place_id
    = mkSerialized rid (snd e) (fields (stored_review place_id body e)) :: tail
    /\ Permutation tail (reviews_listed db place_id).
Proof.
  intros Hlater H.
  destruct (route_add_review_ok_inv _ _ _ _ H) as (oid & p & _ & _ & _ & -> & ->).
  rewrite !reviews_listed_eq.
  assert (Hr : review (reviewed db oid place_id body e)
               = Collection.insert_one (review db) (stored_review place_id body e))
    by reflexivity.
  rewrite Hr, find_app. unfold by_place_id at 2. cbn [stored_review fields Review.place_id].
  rewrite String.eqb_refl. fold (stored_review place_id body e).
  set (old := Collection.find (review db) (by_place_id place_id)) in *.
  destruct (@sorted_head_is_newest _ (@created_at _) (stored_review place_id body e)
              (Collection.sort_desc (@created_at _) (old ++ [stored_review place_id body e]))
              old) as (tail & Ht & Hp).
  - apply sort_desc_sorted.
  - eapply perm_trans; [apply Permutation_sym, sort_desc_perm|].
    apply Permutation_sym, Permutation_cons_append.
  - exact Hlater.
  - exists (map serialize_doc tail). rewrite Ht. split; [reflexivity|].
    apply Permutation_map. eapply perm_trans; [exact Hp|apply sort_desc_perm].
Qed.

Lemma add_review_listed_first_witness :
  exists tail,
    reviews_listed reviewed_db oid1
    = mkSerialized oid6 (snd (oid6, 201)) (fields (stored_review oid1 (review_body 4) (oid6, 201)))
        :: tail
    /\ Permutation tail (reviews_listed respelled_db1 oid1).
Proof.
  refine (@add_review_listed_first respelled_db1 oid1 (review_body 4) (oid6, 201)
            reviewed_db oid6 _ eq_refl).
  repeat constructor.
Defined.
